(** * Duxbury (dbtw.exe) status reporting: a shallow embedding of
      [appModules/dbtw.py] and the properties of its status-bar heuristics.

    Text is modelled by [string]; the character classes are the ones Python
    uses on ASCII input ([str.isspace], [str.isdigit], [\s], [\d], [\w]).
    Python integers that only count upwards from zero are [nat]; candidate
    priorities are [Z].  The result dictionary of the parser is a
    [gmap string string], the [seen] set of the collector a [gset string]. *)

From Stdlib Require Import ZArith Lia List Bool Ascii String Sorted Permutation.
From stdpp Require Import gmap strings list fin_maps.
Import ListNotations.
Local Open Scope string_scope.
Local Open Scope list_scope.
Local Open Scope nat_scope.

(* ===================================================================== *)
(** ** Text primitives                                                    *)
(* ===================================================================== *)

Module Text.

(** [str.isspace] on one ASCII character: TAB, LF, VT, FF, CR, the four
    separators FS, GS, RS, US, and the space. *)
Definition isspace (c : ascii) : bool :=
  let n := nat_of_ascii c in
  ((9 <=? n) && (n <=? 13)) || ((28 <=? n) && (n <=? 32)).

(** [str.isdigit] on one ASCII character, which is also [\d]. *)
Definition isdigit_char (c : ascii) : bool :=
  let n := nat_of_ascii c in (48 <=? n) && (n <=? 57).

Definition is_empty (s : string) : bool :=
  match s with EmptyString => true | String _ _ => false end.

Fixpoint all_chars (p : ascii -> bool) (s : string) : bool :=
  match s with
  | EmptyString => true
  | String c r => p c && all_chars p r
  end.

(** [s.isdigit()]: at least one character, and all of them digits. *)
Definition isdigit (s : string) : bool :=
  negb (is_empty s) && all_chars isdigit_char s.

(** [re.sub(r"\s+", " ", s)]: every maximal run of whitespace becomes one
    space. *)
Fixpoint collapse_ws (s : string) : string :=
  match s with
  | EmptyString => EmptyString
  | String c r =>
      if isspace c then
        match r with
        | String d _ => if isspace d then collapse_ws r
                        else String " " (collapse_ws r)
        | EmptyString => String " " EmptyString
        end
      else String c (collapse_ws r)
  end.

Fixpoint lstrip (s : string) : string :=
  match s with
  | EmptyString => EmptyString
  | String c r => if isspace c then lstrip r else s
  end.

Fixpoint rstrip (s : string) : string :=
  match s with
  | EmptyString => EmptyString
  | String c r =>
      let r' := rstrip r in
      if isspace c && is_empty r' then EmptyString else String c r'
  end.

(** [s.strip()] *)
Definition strip (s : string) : string := rstrip (lstrip s).

(** [re.sub(r"\s+", " ", s).strip()] *)
Definition normalize (s : string) : string := strip (collapse_ws s).

(** [re.findall(r"\d+", s)]: the maximal digit runs of [s], left to right.
    [cur] is the run being read. *)
Fixpoint digit_runs_from (cur : string) (s : string) : list string :=
  match s with
  | EmptyString => if is_empty cur then [] else [cur]
  | String c r =>
      if isdigit_char c then digit_runs_from (cur ++ String c EmptyString) r
      else if is_empty cur then digit_runs_from EmptyString r
      else cur :: digit_runs_from EmptyString r
  end.

Definition digit_runs (s : string) : list string :=
  digit_runs_from EmptyString s.

(** [sep.join(parts)] *)
Fixpoint join (sep : string) (parts : list string) : string :=
  match parts with
  | [] => EmptyString
  | [p] => p
  | p :: rest => p ++ sep ++ join sep rest
  end.

Definition lower_char (c : ascii) : ascii :=
  let n := nat_of_ascii c in
  if (65 <=? n) && (n <=? 90) then ascii_of_nat (n + 32) else c.

(** [s.lower()] *)
Fixpoint lower (s : string) : string :=
  match s with
  | EmptyString => EmptyString
  | String c r => String (lower_char c) (lower r)
  end.

End Text.

(* ===================================================================== *)
(** ** The UI tree of the host                                            *)
(* ===================================================================== *)

(** Reading an attribute of a host object either raises or yields a value. *)
Inductive read (A : Type) : Type :=
| Raises : read A
| Val (v : A) : read A.
Arguments Raises {A}.
Arguments Val {A} v.

(** [controlTypes.Role]: only [STATUSBAR] is told apart. *)
Inductive Role : Type :=
| STATUSBAR
| OtherRole (code : nat).

(** A UI object is known by its identity in the host's object store, so
    that a child list may lead back to an ancestor. *)
Definition node : Type := nat.

(** What the module reads of one object.  An optional value is [None] when
    the attribute is missing, [None] or, for [windowClassName], not a
    string. *)
Record NVDAObject : Type := {
  role : read (option Role);
  windowClassName : read (option string);
  name : read (option string);
  value : read (option string);
  windowText : read (option string);
  description : read (option string);
  children : read (list node)
}.

Definition ui_tree : Type := node -> NVDAObject.

(** [list(getattr(n, "children", []) or [])] inside [try]/[except]. *)
Definition kids_of (ui : ui_tree) (n : node) : list node :=
  match children (ui n) with
  | Val ks => ks
  | Raises => []
  end.

(** [_walk(n, depth)] of [_iter_children], with the nonlocal [count] passed
    in and returned next to the nodes yielded.  [fuel] bounds the nesting
    of calls; [None] means it ran out. *)
Fixpoint _walk (ui : ui_tree) (max_depth max_nodes : nat) (fuel : nat)
    (n : option node) (depth count : nat) : option (list node * nat) :=
  match fuel with
  | 0 => None
  | S fuel' =>
      match n with
      | None => Some ([], count)
      | Some n =>
          if (max_depth <? depth) || (max_nodes <=? count) then Some ([], count)
          else
            (fix each (kids : list node) (count : nat)
               : option (list node * nat) :=
               match kids with
               | [] => Some ([], count)
               | k :: rest =>
                   match _walk ui max_depth max_nodes fuel' (Some k)
                           (depth + 1) (count + 1) with
                   | None => None
                   | Some (below, count1) =>
                       match each rest count1 with
                       | None => None
                       | Some (later, count2) =>
                           Some (k :: below ++ later, count2)
                       end
                   end
               end) (kids_of ui n) count
      end
  end.

(** The nodes [_iter_children] yields and the final value of [count].  The
    fuel [max_depth + 2] is enough ([_walk_total]), so the [None] branch is
    not taken. *)
Definition _iter_children_run (ui : ui_tree) (n : option node)
    (max_depth max_nodes : nat) : list node * nat :=
  match _walk ui max_depth max_nodes (max_depth + 2) n 0 0 with
  | Some r => r
  | None => ([], 0)
  end.

Definition _iter_children (ui : ui_tree) (n : option node)
    (max_depth max_nodes : nat) : list node :=
  fst (_iter_children_run ui n max_depth max_nodes).

(** Distance from the root along child lists: [reach ui d r n] when [n] is
    [d] child steps below [r]. *)
Inductive reach (ui : ui_tree) : nat -> node -> node -> Prop :=
| reach_O r : reach ui 0 r r
| reach_S d r m n : reach ui d r m -> In n (kids_of ui m) -> reach ui (S d) r n.

(* ===================================================================== *)
(** ** Candidates                                                         *)
(* ===================================================================== *)

(** A candidate is a pair (priority, text). *)
Definition cand : Type := (Z * string)%type.

(** [_add(txt, prio)] of [_collect_candidate_texts]. *)
Definition _add (txt : option string) (prio : Z) (candidates : list cand)
  : list cand :=
  match txt with
  | None => candidates
  | Some t =>
      if Text.is_empty t then candidates
      else
        let s := Text.normalize t in
        if Text.is_empty s then candidates else candidates ++ [(prio, s)]
  end.

(** [for attr in (...): _add(getattr(n, attr, None), prio)] under the
    [try] of the loop body: a read that raises abandons the node, and what
    was appended before it stays. *)
Fixpoint add_attrs (reads : list (read (option string))) (prio : Z)
    (candidates : list cand) : list cand :=
  match reads with
  | [] => candidates
  | Raises :: _ => candidates
  | Val txt :: rest => add_attrs rest prio (_add txt prio candidates)
  end.

Definition text_attrs (o : NVDAObject) : list (read (option string)) :=
  [name o; value o; windowText o; description o].

Definition STATUSBAR_CLASSES : list string :=
  ["msctls_statusbar32"; "statusbarwindow32"; "tstatusbar"].

(** The body of the [for n in self._iter_children(...)] loop. *)
Definition visit (o : NVDAObject) (candidates : list cand) : list cand :=
  match role o with
  | Raises => candidates
  | Val (Some STATUSBAR) => add_attrs (text_attrs o) 0%Z candidates
  | Val _ =>
      match windowClassName o with
      | Raises => candidates
      | Val wc =>
          let basePrio :=
            match wc with
            | Some c =>
                if existsb (String.eqb (Text.lower c)) STATUSBAR_CLASSES
                then 1%Z else 2%Z
            | None => 2%Z
            end in
          add_attrs (text_attrs o) basePrio candidates
      end
  end.

(** The candidates appended while walking the subtree of [fg]. *)
Definition gather (ui : ui_tree) (fg : node) : list cand :=
  fold_left (fun candidates n => visit (ui n) candidates)
            (_iter_children ui (Some fg) 6 800) [].

(** [sorted(candidates, key=lambda x: x[0])]: a stable sort on the
    priority, here by insertion from the right. *)
Fixpoint insert_by_prio (c : cand) (l : list cand) : list cand :=
  match l with
  | [] => [c]
  | d :: r => if (fst c <=? fst d)%Z then c :: l else d :: insert_by_prio c r
  end.

Definition sorted_by_prio (l : list cand) : list cand :=
  fold_right insert_by_prio [] l.

(** The loop that fills [unique], with the set [seen] passed along. *)
Fixpoint unique_from (seen : gset string) (l : list cand) : list cand :=
  match l with
  | [] => []
  | (pr, s) :: r =>
      if decide (s ∈ seen) then unique_from seen r
      else (pr, s) :: unique_from ({[s]} ∪ seen) r
  end.

(** Lines 125-132: sort by priority, keep the first of each text. *)
Definition unique_sorted (candidates : list cand) : list cand :=
  unique_from ∅ (sorted_by_prio candidates).

(* ===================================================================== *)
(** ** Regular expressions                                                *)
(* ===================================================================== *)

(** The fragment of Python's [re] syntax the pattern tables use.  All
    patterns are searched with [re.IGNORECASE]. *)
Inductive regex : Type :=
| RLit (s : string)              (* literal text *)
| RDigit                         (* \d *)
| RSpace                         (* \s *)
| RSet (cs : string)             (* [cs] *)
| RWordB                         (* \b *)
| RSeq (r1 r2 : regex)           (* r1 r2 *)
| RAlt (r1 r2 : regex)           (* r1|r2 *)
| ROpt (r : regex)               (* r? *)
| RStar (r : regex)              (* r* *)
| RPlus (r : regex)              (* r+ *)
| RGroup (i : nat) (r : regex).  (* (r), the capturing group of index i,
                                    counted from 0 by opening parenthesis *)

Module Re.

Fixpoint seq (rs : list regex) : regex :=
  match rs with
  | [] => RLit ""
  | [r] => r
  | r :: rest => RSeq r (seq rest)
  end.

(** [w1|w2|...] *)
Fixpoint words (ws : list string) : regex :=
  match ws with
  | [] => RLit ""
  | [w] => RLit w
  | w :: rest => RAlt (RLit w) (words rest)
  end.

(** [\s*], [\s+], [[:#.=]?], [(\d+)] as group [i]. *)
Definition ws : regex := RStar RSpace.
Definition ws1 : regex := RPlus RSpace.
Definition sep : regex := ROpt (RSet ":#.=").
Definition num (i : nat) : regex := RGroup i (RPlus RDigit).

(** [\b(w1|w2|...)\b\s*[:#.=]?\s*(\d+)\b] *)
Definition labelled (ws_ : list string) : regex :=
  seq [RWordB; RGroup 0 (words ws_); RWordB; ws; sep; ws; num 1; RWordB].

(** [\b(w)\s+(\d+)\s+of\b] *)
Definition n_of (w : string) : regex :=
  seq [RWordB; RGroup 0 (RLit w); ws1; num 1; ws1; RLit "of"; RWordB].

(** [\bw\s*=\s*(\d+)\b] *)
Definition assigned (w : string) : regex :=
  seq [RWordB; RLit w; ws; RLit "="; ws; num 0; RWordB].

(** [\bw(\d+)\b] *)
Definition glued (w : string) : regex :=
  seq [RWordB; RLit w; num 0; RWordB].

Fixpoint ngroups (r : regex) : nat :=
  match r with
  | RSeq a b | RAlt a b => ngroups a + ngroups b
  | ROpt a | RStar a | RPlus a => ngroups a
  | RGroup _ a => S (ngroups a)
  | _ => 0
  end.

Fixpoint size (r : regex) : nat :=
  match r with
  | RLit s => S (String.length s)
  | RSeq a b | RAlt a b => S (size a + size b)
  | ROpt a | RStar a | RPlus a | RGroup _ a => S (size a)
  | _ => 1
  end.

(** [\w] on ASCII. *)
Definition is_word (c : ascii) : bool :=
  let n := nat_of_ascii c in
  ((48 <=? n) && (n <=? 57)) || ((65 <=? n) && (n <=? 90))
  || ((97 <=? n) && (n <=? 122)) || (n =? 95).

Definition word_before (prev : option ascii) : bool :=
  match prev with Some c => is_word c | None => false end.

Definition word_after (s : string) : bool :=
  match s with String c _ => is_word c | EmptyString => false end.

Fixpoint mem_char (c : ascii) (cs : string) : bool :=
  match cs with
  | EmptyString => false
  | String d r => Ascii.eqb c d || mem_char c r
  end.

Fixpoint set_group (i : nat) (g : string) (caps : list (option string))
  : list (option string) :=
  match caps, i with
  | [], _ => []
  | _ :: r, 0 => Some g :: r
  | c :: r, S j => c :: set_group j g r
  end.

(** The text between two positions: what [s] has before its suffix [s']. *)
Definition consumed (s s' : string) : string :=
  substring 0 (String.length s - String.length s') s.

(** A backtracking matcher in continuation-passing style: leftmost,
    alternatives in order, greedy quantifiers.  [prev] is the character
    before the position, for [\b]. *)
Fixpoint run (fuel : nat) (r : regex) (prev : option ascii) (s : string)
    (caps : list (option string))
    (k : option ascii -> string -> list (option string)
         -> option (list (option string)))
  : option (list (option string)) :=
  match fuel with
  | 0 => None
  | S f =>
      match r with
      | RLit l =>
          match l with
          | EmptyString => k prev s caps
          | String c l' =>
              match s with
              | String d s' =>
                  if Ascii.eqb (Text.lower_char c) (Text.lower_char d)
                  then run f (RLit l') (Some d) s' caps k else None
              | EmptyString => None
              end
          end
      | RDigit =>
          match s with
          | String d s' =>
              if Text.isdigit_char d then k (Some d) s' caps else None
          | EmptyString => None
          end
      | RSpace =>
          match s with
          | String d s' => if Text.isspace d then k (Some d) s' caps else None
          | EmptyString => None
          end
      | RSet cs =>
          match s with
          | String d s' => if mem_char d cs then k (Some d) s' caps else None
          | EmptyString => None
          end
      | RWordB =>
          if xorb (word_before prev) (word_after s) then k prev s caps
          else None
      | RSeq a b =>
          run f a prev s caps (fun p s' c => run f b p s' c k)
      | RAlt a b =>
          match run f a prev s caps k with
          | Some c => Some c
          | None => run f b prev s caps k
          end
      | ROpt a =>
          match run f a prev s caps k with
          | Some c => Some c
          | None => k prev s caps
          end
      | RStar a =>
          match run f a prev s caps
                  (fun p s' c =>
                     if String.length s' <? String.length s
                     then run f (RStar a) p s' c k else None) with
          | Some c => Some c
          | None => k prev s caps
          end
      | RPlus a =>
          run f a prev s caps (fun p s' c => run f (RStar a) p s' c k)
      | RGroup i a =>
          run f a prev s caps
              (fun p s' c => k p s' (set_group i (consumed s s') c))
      end
  end.

Fixpoint search_from (fuel : nat) (r : regex) (prev : option ascii)
    (s : string) : option (list (option string)) :=
  match run fuel r prev s (repeat None (ngroups r))
            (fun _ _ c => Some c) with
  | Some c => Some c
  | None =>
      match s with
      | EmptyString => None
      | String c s' => search_from fuel r (Some c) s'
      end
  end.

(** [re.search(pat, text, re.IGNORECASE)], as the tuple [m.groups()] of
    the first match, if any. *)
Definition search (pat : regex) (text : string)
  : option (list (option string)) :=
  search_from (size pat + String.length text + 2) pat None text.

End Re.

(** [_PAGE_PATTERNS], [_LINE_PATTERNS], [_COL_PATTERNS] *)
Definition _PAGE_PATTERNS : list regex :=
  [ Re.labelled ["Page"; "Pg"; "P"; "Stranica"; "Str"];
    Re.n_of "Page";
    Re.assigned "P"; Re.glued "P";
    Re.assigned "Str"; Re.glued "Str" ].

Definition _LINE_PATTERNS : list regex :=
  [ Re.labelled ["Line"; "Ln"; "Row"; "Linija"; "Redak"; "Retka"];
    Re.n_of "Line";
    Re.labelled ["L"; "R"];
    Re.assigned "L"; Re.glued "L";
    Re.seq [RWordB; RLit "Ln"; ROpt (RLit "."); Re.ws; Re.sep; Re.ws;
            Re.num 0; RWordB];
    Re.seq [RWordB; RGroup 0 (RSeq (RLit "Red") (ROpt (RLit "ak"))); RWordB;
            Re.ws; Re.sep; Re.ws; Re.num 1; RWordB] ].

Definition _COL_PATTERNS : list regex :=
  [ Re.labelled ["Column"; "Col"; "Cell"; "Kolona"; "Stupac"; "Kol"; "Stu"];
    Re.seq [RWordB; RGroup 0 (RLit "C"); Re.ws; Re.sep; Re.ws; Re.num 1;
            RWordB];
    Re.assigned "C"; Re.glued "C" ].

(* ===================================================================== *)
(** ** Calls into the host and the libraries, as a trace                  *)
(* ===================================================================== *)

Inductive event : Type :=
| EvReportStatusLine                 (* globalCommands...script_reportStatusLine(None) *)
| EvGetStatusBarText                 (* api.getStatusBarText() *)
| EvGetForegroundObject              (* api.getForegroundObject() *)
| EvSleep                            (* time.sleep(0.03) *)
| EvLogDebug                         (* log.debug(...) *)
| EvSearch (pat : regex) (text : string)  (* re.search(pat, text, re.IGNORECASE) *)
| EvFindall (text : string)          (* re.findall(r"\d+", text) *)
| EvMessage (msg : string).          (* ui.message(msg) *)

(** A computation returns a value and the calls it made, in order. *)
Definition M (A : Type) : Type := (A * list event)%type.

Definition ret {A : Type} (a : A) : M A := (a, []).

Definition bind {A B : Type} (m : M A) (f : A -> M B) : M B :=
  (fst (f (fst m)), snd m ++ snd (f (fst m))).

Definition emit (e : event) : M unit := (tt, [e]).

Notation "'let*' x := m 'in' k" := (bind m (fun x => k))
  (at level 10, x name, m at level 100, k at level 200, only parsing).
Notation "m ;;; k" := (bind m (fun _ => k))
  (at level 100, k at level 200, only parsing, right associativity).

Definition result {A : Type} (m : M A) : A := fst m.
Definition calls {A : Type} (m : M A) : list event := snd m.

(** The messages spoken, in order. *)
Fixpoint spoken (t : list event) : list string :=
  match t with
  | [] => []
  | EvMessage msg :: r => msg :: spoken r
  | _ :: r => spoken r
  end.

(** Python truth of an optional string: neither [None] nor empty. *)
Definition truthy (o : option string) : bool :=
  match o with
  | Some s => negb (Text.is_empty s)
  | None => false
  end.

(** [for g in reversed(m.groups()): if g and str(g).isdigit(): return g] *)
Fixpoint first_digit_group (groups : list (option string)) : option string :=
  match groups with
  | [] => None
  | g :: r =>
      if truthy g && match g with Some s => Text.isdigit s | None => false end
      then g else first_digit_group r
  end.

Definition last_digit_group (groups : list (option string)) : option string :=
  first_digit_group (rev groups).

Definition setdefault (k v : string) (out : gmap string string)
  : gmap string string :=
  match out !! k with
  | Some _ => out
  | None => <[k := v]> out
  end.

Definition complete (out : gmap string string) : bool :=
  bool_decide (is_Some (out !! "page"))
  && bool_decide (is_Some (out !! "line"))
  && bool_decide (is_Some (out !! "col")).

(** The phrases of the summary, in the order Page, Line, Column. *)
Definition parts_of (parsed : gmap string string) : list string :=
  match parsed !! "page" with Some v => [("Page " ++ v)%string] | None => [] end
  ++ match parsed !! "line" with Some v => [("Line " ++ v)%string] | None => [] end
  ++ match parsed !! "col" with Some v => [("Column " ++ v)%string] | None => [] end.

Section Host.

(** The regular-expression engine: [re_search pat text] is the tuple
    [m.groups()] of [re.search(pat, text, re.IGNORECASE)], or [None]. *)
Variable re_search : regex -> string -> option (list (option string)).

(** The host at the time of the key press: the object store, the outcome
    of [api.getForegroundObject()], of the [i]-th call of
    [api.getStatusBarText()], and of the built-in status report. *)
Variable ui : ui_tree.
Variable getForegroundObject : read (option node).
Variable getStatusBarText : nat -> read (option string).
Variable reportStatusLine : read unit.

Definition search (pat : regex) (text : string)
  : M (option (list (option string))) :=
  emit (EvSearch pat text) ;;; ret (re_search pat text).

Definition findall_digits (text : string) : M (list string) :=
  emit (EvFindall text) ;;; ret (Text.digit_runs text).

Definition message (msg : string) : M unit := emit (EvMessage msg).

(** [_get_status_text_api]: [attempt i left] is the loop from its [i]-th
    iteration on, with [left] iterations to go. *)
Fixpoint attempt (i left : nat) : M (option string) :=
  match left with
  | 0 => ret None
  | S left' =>
      emit EvGetStatusBarText ;;;
      match getStatusBarText i with
      | Val t =>
          if truthy t
             && match t with
                | Some s => negb (Text.is_empty (Text.strip s))
                | None => false
                end
          then ret (option_map Text.normalize t)
          else emit EvSleep ;;; attempt (S i) left'
      | Raises => emit EvLogDebug ;;; emit EvSleep ;;; attempt (S i) left'
      end
  end.

Definition _get_status_text_api : M (option string) := attempt 0 3.

Definition _collect_candidate_texts : M (list cand) :=
  emit EvGetForegroundObject ;;;
  let* fg := match getForegroundObject with
        | Val fg => ret fg
        | Raises => emit EvLogDebug ;;; ret None
        end in
  match fg with
  | None => ret []
  | Some root => ret (unique_sorted (gather ui root))
  end.

Fixpoint _match_first_number (text : string) (patterns : list regex)
  : M (option string) :=
  match patterns with
  | [] => ret None
  | pat :: rest =>
      let* m := search pat text in
      match m with
      | Some groups =>
          match last_digit_group groups with
          | Some g => ret (Some g)
          | None => _match_first_number text rest
          end
      | None => _match_first_number text rest
      end
  end.

(** [if k not in out: n = self._match_first_number(t, pats);
     if n: out[k] = n] *)
Definition try_field (k : string) (pats : list regex) (t : string)
    (out : gmap string string) : M (gmap string string) :=
  match out !! k with
  | Some _ => ret out
  | None =>
      let* n := _match_first_number t pats in
      ret (match n with
           | Some v => if truthy n then <[k := v]> out else out
           | None => out
           end)
  end.

Definition try_fields (t : string) (out : gmap string string)
  : M (gmap string string) :=
  let* out := try_field "page" _PAGE_PATTERNS t out in
  let* out := try_field "line" _LINE_PATTERNS t out in
  try_field "col" _COL_PATTERNS t out.

(** Stage 1, the loop over the individual texts, with its [break]. *)
Fixpoint each_text (texts : list cand) (out : gmap string string)
  : M (gmap string string) :=
  match texts with
  | [] => ret out
  | (_, t) :: rest =>
      let* out := try_fields t out in
      if complete out then ret out else each_text rest out
  end.

(** Stage 3 on the digit runs [nums]. *)
Definition positional (nums : list string) (out : gmap string string)
  : gmap string string :=
  if 3 <=? length nums then
    setdefault "col" (nth 2 nums "")
      (setdefault "line" (nth 1 nums "")
         (setdefault "page" (nth 0 nums "") out))
  else out.

Definition _parse_from_any (texts : list cand) : M (gmap string string) :=
  let* out := each_text texts ∅ in
  if complete out then ret out
  else
    let big := Text.join " | " (map snd texts) in
    let* out := try_fields big out in
    let* nums := findall_digits big in
    ret (positional nums out).

Definition ui_scan : M (gmap string string) :=
  let* cand := _collect_candidate_texts in
  _parse_from_any cand.

Definition script_reportDuxburyStatus : M unit :=
  emit EvReportStatusLine ;;;
  match reportStatusLine with
  | Val _ => ret tt
  | Raises =>
      emit EvLogDebug ;;;
      let* text := _get_status_text_api in
      if truthy text then message (default "" text)
      else
        let* parsed := ui_scan in
        if bool_decide (parsed = ∅) then message "Status bar not available."
        else
          match parts_of parsed with
          | [] => message "Status bar not available."
          | parts => message (Text.join ", " parts)
          end
  end.

Definition line_from_scan : M unit :=
  let* parsed := ui_scan in
  match parsed !! "line" with
  | Some v => message ("Line " ++ v)%string
  | None => message "Line number not available."
  end.

Definition script_reportDuxburyLine : M unit :=
  let* text := _get_status_text_api in
  if truthy text then
    let* n := _match_first_number (default "" text) _LINE_PATTERNS in
    let* n := (if truthy n then ret n
          else
            let* nums := findall_digits (default "" text) in
            ret (if length nums =? 3 then Some (nth 1 nums "") else n)) in
    if truthy n then message ("Line " ++ default "" n)%string
    else line_from_scan
  else line_from_scan.

Definition page_from_scan : M unit :=
  let* parsed := ui_scan in
  match parsed !! "page" with
  | Some v => message ("Page " ++ v)%string
  | None => message "Page number not available."
  end.

Definition script_reportDuxburyPage : M unit :=
  let* text := _get_status_text_api in
  if truthy text then
    let* n := _match_first_number (default "" text) _PAGE_PATTERNS in
    let* n := (if truthy n then ret n
          else
            let* nums := findall_digits (default "" text) in
            ret (if 1 <=? length nums then Some (nth 0 nums "") else n)) in
    if truthy n then message ("Page " ++ default "" n)%string
    else page_from_scan
  else page_from_scan.

End Host.

(* ===================================================================== *)
(** ** Debug helpers                                                      *)
(* ===================================================================== *)

Section Debug.

Variable re_search : regex -> string -> option (list (option string)).
Variable ui : ui_tree.
Variable getForegroundObject : read (option node).

(** [for i, (_, s) in enumerate(cand[:30], 1): log.debug(...)], on the
    slice already taken. *)
Fixpoint log_candidates (shown : list cand) : M unit :=
  match shown with
  | [] => ret tt
  | _ :: rest => emit EvLogDebug ;;; log_candidates rest
  end.

Definition debugListCandidates : M unit :=
  let* cand := _collect_candidate_texts ui getForegroundObject in
  let* parsed := _parse_from_any re_search cand in
  emit EvLogDebug ;;;
  log_candidates (firstn 30 cand) ;;;
  emit EvLogDebug ;;;
  if bool_decide (parsed = ∅) then message "No status candidates found."
  else message (Text.join ", " (parts_of parsed)).

Definition debugScanSummary : M unit :=
  let* cand := _collect_candidate_texts ui getForegroundObject in
  let* parsed := _parse_from_any re_search cand in
  if bool_decide (parsed = ∅)
  then message "UI scan did not find status information."
  else message (Text.join ", " (parts_of parsed)).

End Debug.

(* ===================================================================== *)
(** ** Sample hosts                                                       *)
(* ===================================================================== *)

(** An object with no text and no children. *)
Definition blank_object : NVDAObject :=
  {| role := Val None; windowClassName := Val None;
     name := Val None; value := Val None; windowText := Val None;
     description := Val None; children := Val [] |}.

Definition with_kids (ks : list node) : NVDAObject :=
  {| role := Val None; windowClassName := Val None;
     name := Val None; value := Val None; windowText := Val None;
     description := Val None; children := Val ks |}.

Definition named (r : option Role) (txt : string) (ks : list node)
  : NVDAObject :=
  {| role := Val r; windowClassName := Val None;
     name := Val (Some txt); value := Val None; windowText := Val None;
     description := Val None; children := Val ks |}.

(** A window (object 0) with 801 children, none of which has children. *)
Definition wide_tree : ui_tree :=
  fun n => if n =? 0 then with_kids (seq 1 801) else blank_object.

(** A chain 0 -> 1 -> 2 -> ... : object [n] has the one child [n + 1]. *)
Definition chain_tree : ui_tree := fun n => with_kids [n + 1].

(** A window that is its own only child, three times over. *)
Definition looping_tree : ui_tree := fun _ => with_kids [0; 0; 0].

(** A window with a name of its own and no children. *)
Definition lone_window (txt : string) : ui_tree :=
  fun n => if n =? 0 then named None txt [] else blank_object.

(** A window whose two children carry the same text, the second one being
    a status bar. *)
Definition status_tree : ui_tree :=
  fun n =>
    match n with
    | 0 => named None "Duxbury" [1; 2]
    | 1 => named None "Page 5  Line 12   Col 3" []
    | 2 => named (Some STATUSBAR) "Page 5 Line 12 Col 3" []
    | _ => blank_object
    end.


Definition always (r : read (option string)) : nat -> read (option string) :=
  fun _ => r.

(* ===================================================================== *)
(** ** Vocabulary of the statements                                       *)
(* ===================================================================== *)


(** The order the collector sorts by. *)
Definition prio_le (c d : cand) : Prop := (fst c <= fst d)%Z.

(** A [re.search] call on one of [texts]. *)
Definition is_search_on (texts : list string) (e : event) : Prop :=
  exists pat t, e = EvSearch pat t /\ In t texts.


(** An answer of [api.getStatusBarText()] that the retry loop passes
    over: an exception, [None], or text that is empty once stripped. *)
Definition blank (r : read (option string)) : bool :=
  match r with
  | Val (Some t) => Text.is_empty (Text.strip t)
  | _ => true
  end.

(** The calls of one iteration that does not return. *)
Definition failed_round (r : read (option string)) : list event :=
  match r with
  | Raises => [EvGetStatusBarText; EvLogDebug; EvSleep]
  | Val _ => [EvGetStatusBarText; EvSleep]
  end.






(** No object of the store lists more than [b] children. *)
Definition max_kids (ui : ui_tree) (b : nat) : Prop :=
  forall n, length (kids_of ui n) <= b.

(** A parser result has no key besides the three fields. *)
Definition fields_only (out : gmap string string) : Prop :=
  forall k, is_Some (out !! k) -> k = "page" \/ k = "line" \/ k = "col".

(** None of the patterns of the three tables matches the text. *)
Definition unmatched
    (re_search : regex -> string -> option (list (option string)))
    (text : string) : Prop :=
  Forall (fun pat => re_search pat text = None)
         (_PAGE_PATTERNS ++ _LINE_PATTERNS ++ _COL_PATTERNS).

(* ===================================================================== *)
(** * Properties                                                          *)
(* ===================================================================== *)

(** ** The monad *)

Lemma result_bind {A B : Type} (m : M A) (f : A -> M B) :
  result (bind m f) = result (f (result m)).
Proof. reflexivity. Qed.

Lemma calls_bind {A B : Type} (m : M A) (f : A -> M B) :
  calls (bind m f) = calls m ++ calls (f (result m)).
Proof. reflexivity. Qed.

Lemma M_eta {A : Type} (m : M A) : (result m, calls m) = m.
Proof. destruct m; reflexivity. Qed.

Lemma M_eq {A : Type} (m1 m2 : M A) :
  result m1 = result m2 -> calls m1 = calls m2 -> m1 = m2.
Proof. destruct m1, m2; simpl; congruence. Qed.

Lemma spoken_app (t1 t2 : list event) :
  spoken (t1 ++ t2) = spoken t1 ++ spoken t2.
Proof.
  induction t1 as [|e t1 IH]; [reflexivity|].
  destruct e; simpl; rewrite ?IH; reflexivity.
Qed.

(** ** Traversal *)

Section Walk.

Variable ui : ui_tree.
Variables max_depth max_nodes : nat.

(** The walk returns as soon as the fuel covers the depth still allowed. *)
Lemma _walk_total (fuel : nat) :
  forall (n : option node) (depth count : nat),
    1 <= fuel -> max_depth + 2 <= fuel + depth ->
    exists r, _walk ui max_depth max_nodes fuel n depth count = Some r.
Proof.
  induction fuel as [|f IH]; intros n depth count Hf Hd; [lia|].
  simpl. destruct n as [n|]; [|eauto].
  destruct ((max_depth <? depth) || (max_nodes <=? count)) eqn:Hstop; [eauto|].
  apply orb_false_iff in Hstop as [Hdepth _].
  apply Nat.ltb_ge in Hdepth.
  generalize (kids_of ui n) as kids. intros kids. revert count.
  induction kids as [|k kids IHk]; intros count; [eauto|].
  destruct (IH (Some k) (depth + 1) (count + 1)) as [[below c1] ->]; [lia|lia|].
  destruct (IHk c1) as [[later c2] ->]. eauto.
Qed.

(** [count] grows by one for every node yielded. *)
Lemma _walk_count (fuel : nat) :
  forall (n : option node) (depth count : nat) ys c,
    _walk ui max_depth max_nodes fuel n depth count = Some (ys, c) ->
    c = count + length ys.
Proof.
  induction fuel as [|f IH]; intros n depth count ys c; [discriminate|].
  simpl. destruct n as [n|]; [|intros [= <- <-]; simpl; lia].
  destruct ((max_depth <? depth) || (max_nodes <=? count));
    [intros [= <- <-]; simpl; lia|].
  generalize (kids_of ui n) as kids. intros kids. revert count ys c.
  induction kids as [|k kids IHk]; intros count ys c;
    [intros [= <- <-]; simpl; lia|].
  destruct (_walk ui max_depth max_nodes f (Some k) (depth + 1) (count + 1))
    as [[below c1]|] eqn:Hk; [|discriminate].
  match goal with
  | |- context [?loop kids c1] => destruct (loop kids c1) as [[later c2]|] eqn:Hl
  end; [|discriminate].
  intros [= <- <-].
  apply IH in Hk. apply IHk in Hl. simpl. rewrite length_app. lia.
Qed.

(** Every node yielded by a walk started at depth [depth] lies at most
    [max_depth + 1 - depth] child steps below the node walked. *)
Lemma _walk_depth (fuel : nat) :
  forall (n : node) (depth count : nat) ys c,
    _walk ui max_depth max_nodes fuel (Some n) depth count = Some (ys, c) ->
    forall y, In y ys ->
      exists d, 1 <= d /\ depth + d <= max_depth + 1 /\ reach ui d n y.
Proof.
  induction fuel as [|f IH]; intros n depth count ys c; [discriminate|].
  simpl.
  destruct ((max_depth <? depth) || (max_nodes <=? count)) eqn:Hstop;
    [intros [= <- <-] y []|].
  apply orb_false_iff in Hstop as [Hdepth _].
  apply Nat.ltb_ge in Hdepth.
  assert (Hsub : forall k, In k (kids_of ui n) -> In k (kids_of ui n)) by auto.
  revert Hsub. generalize (kids_of ui n) at 1 3 as kids. intros kids.
  revert count ys c.
  induction kids as [|k kids IHk]; intros count ys c Hsub;
    [intros [= <- <-] y []|].
  destruct (_walk ui max_depth max_nodes f (Some k) (depth + 1) (count + 1))
    as [[below c1]|] eqn:Hk; [|discriminate].
  match goal with
  | |- context [?loop kids c1] => destruct (loop kids c1) as [[later c2]|] eqn:Hl
  end; [|discriminate].
  intros [= <- <-] y [<-|Hy].
  - exists 1. repeat split; [lia|lia|].
    apply reach_S with (m := n); [constructor|]. apply Hsub. now left.
  - apply in_app_or in Hy as [Hy|Hy].
    + destruct (IH _ _ _ _ _ Hk y Hy) as (d & Hd1 & Hd2 & Hr).
      exists (S d). repeat split; [lia|lia|].
      clear - Hr Hsub. induction Hr.
      * apply reach_S with (m := n); [constructor|]. apply Hsub. now left.
      * eapply reach_S; eauto.
    + eapply IHk; eauto. intros k' Hk'. apply Hsub. now right.
Qed.

End Walk.

Lemma _walk_fuel_mono (ui : ui_tree) (max_depth max_nodes : nat) (fuel : nat) :
  forall fuel' (n : option node) (depth count : nat) r,
    fuel <= fuel' ->
    _walk ui max_depth max_nodes fuel n depth count = Some r ->
    _walk ui max_depth max_nodes fuel' n depth count = Some r.
Proof.
  induction fuel as [|f IH]; intros fuel' n depth count r Hle; [discriminate|].
  destruct fuel' as [|f']; [lia|]. simpl.
  destruct n as [n|]; [|auto].
  destruct ((max_depth <? depth) || (max_nodes <=? count)); [auto|].
  generalize (kids_of ui n) as kids. intros kids. revert count r.
  induction kids as [|k kids IHk]; intros count r; [auto|].
  destruct (_walk ui max_depth max_nodes f (Some k) (depth + 1) (count + 1))
    as [[below c1]|] eqn:Hk; [|discriminate].
  rewrite (IH f' _ _ _ _ ltac:(lia) Hk).
  match goal with
  | |- context [?loop kids c1 = None] => idtac
  | |- match ?loop kids c1 with _ => _ end = _ -> _ =>
      destruct (loop kids c1) as [[later c2]|] eqn:Hl
  end; [|discriminate].
  intros [= <-]. now rewrite (IHk _ _ Hl).
Qed.

(** Termination: every fuel from [max_depth + 2] on gives the same run,
    whatever the object store, be it cyclic. *)
Lemma _iter_children_terminates (ui : ui_tree) (n : option node)
    (max_depth max_nodes : nat) :
  forall fuel, max_depth + 2 <= fuel ->
    _walk ui max_depth max_nodes fuel n 0 0
    = Some (_iter_children_run ui n max_depth max_nodes).
Proof.
  intros fuel Hfuel. unfold _iter_children_run.
  destruct (_walk_total ui max_depth max_nodes (max_depth + 2) n 0 0)
    as [r Hr]; [lia|lia|].
  rewrite Hr. eapply _walk_fuel_mono; eauto.
Qed.

(** The final [count] is the number of nodes yielded. *)
Lemma _iter_children_count (ui : ui_tree) (n : option node)
    (max_depth max_nodes : nat) :
  snd (_iter_children_run ui n max_depth max_nodes)
  = length (_iter_children ui n max_depth max_nodes).
Proof.
  pose proof (_iter_children_terminates ui n max_depth max_nodes
                (max_depth + 2) (Nat.le_refl _)) as H.
  unfold _iter_children.
  destruct (_iter_children_run ui n max_depth max_nodes) as [ys c].
  apply _walk_count in H. simpl. lia.
Qed.

(** What the depth guard does give: a node yielded lies between 1 and
    [max_depth + 1] child steps below the root. *)
Lemma _iter_children_depth (ui : ui_tree) (root : node)
    (max_depth max_nodes : nat) (y : node) :
  In y (_iter_children ui (Some root) max_depth max_nodes) ->
  exists d, 1 <= d <= max_depth + 1 /\ reach ui d root y.
Proof.
  intros Hy.
  pose proof (_iter_children_terminates ui (Some root) max_depth max_nodes
                (max_depth + 2) (Nat.le_refl _)) as H.
  unfold _iter_children in Hy.
  destruct (_iter_children_run ui (Some root) max_depth max_nodes) as [ys c].
  destruct (_walk_depth _ _ _ _ _ _ _ _ _ H y Hy) as (d & H1 & H2 & Hr).
  exists d. split; [lia|assumption].
Qed.

(** On a window that is its own child three times over the traversal
    still returns; [count] ends at 807. *)
Example looping_tree_run :
  snd (_iter_children_run looping_tree (Some 0) 6 800) = 807.
Proof. vm_compute. reflexivity. Qed.

(** The walk reads nothing of an object but its children. *)
Lemma _walk_ext (ui ui' : ui_tree) (max_depth max_nodes : nat) :
  (forall n, kids_of ui' n = kids_of ui n) ->
  forall fuel n depth count,
    _walk ui' max_depth max_nodes fuel n depth count
    = _walk ui max_depth max_nodes fuel n depth count.
Proof.
  intros Hkids fuel.
  induction fuel as [|f IH]; intros n depth count; [reflexivity|].
  simpl. destruct n as [n|]; [|reflexivity].
  destruct ((max_depth <? depth) || (max_nodes <=? count)); [reflexivity|].
  rewrite Hkids. generalize (kids_of ui n) as kids. intros kids. revert count.
  induction kids as [|k kids IHk]; intros count; [reflexivity|].
  rewrite IH.
  destruct (_walk ui max_depth max_nodes f (Some k) (depth + 1) (count + 1))
    as [[below c1]|]; [|reflexivity].
  now rewrite IHk.
Qed.

Lemma fold_visit_ext (ui ui' : ui_tree) (ns : list node) :
  (forall n, In n ns -> ui' n = ui n) ->
  forall acc,
    fold_left (fun candidates n => visit (ui' n) candidates) ns acc
    = fold_left (fun candidates n => visit (ui n) candidates) ns acc.
Proof.
  induction ns as [|n ns IH]; intros Hagree acc; [reflexivity|].
  simpl. rewrite (Hagree n) by now left.
  apply IH. intros m Hm. apply Hagree. now right.
Qed.

(** C1 (the bounds fail on the code): on a window with 801 childless
    children the traversal yields all 801 of them and leaves [count] at
    801, above [max_nodes = 800], because the node count is tested only on
    entry to [_walk] and not inside the loop over the children; and on a
    chain of single children the traversal yields the node seven steps
    below the root, one level below [max_depth = 6]. *)
Theorem iter_children_overruns_limits :
  _iter_children_run wide_tree (Some 0) 6 800 = (seq 1 801, 801)
  /\ _iter_children chain_tree (Some 0) 6 800 = [1; 2; 3; 4; 5; 6; 7].
Proof. split; vm_compute; reflexivity. Qed.

(** C10: the collector emits nothing of the foreground window itself.  A
    foreground window without children gives the empty sequence, and
    changing any attribute of the window other than its children changes
    neither the candidates nor the calls made, as long as the window is
    not one of the nodes its own traversal yields. *)
Theorem collector_skips_foreground (ui : ui_tree) (fg : node) :
  (kids_of ui fg = [] ->
   result (_collect_candidate_texts ui (Val (Some fg))) = [])
  /\ (forall ui' : ui_tree,
        (forall n, children (ui' n) = children (ui n)) ->
        (forall n, n <> fg -> ui' n = ui n) ->
        ~ In fg (_iter_children ui (Some fg) 6 800) ->
        _collect_candidate_texts ui' (Val (Some fg))
        = _collect_candidate_texts ui (Val (Some fg))).
Proof.
  split.
  - intros Hkids. cbn. unfold gather, _iter_children, _iter_children_run.
    cbn. rewrite Hkids. reflexivity.
  - intros ui' Hchildren Hrest Hfresh.
    assert (Hkids : forall n, kids_of ui' n = kids_of ui n)
      by (intros n; unfold kids_of; now rewrite Hchildren).
    assert (Hiter : _iter_children ui' (Some fg) 6 800
                    = _iter_children ui (Some fg) 6 800)
      by (unfold _iter_children, _iter_children_run;
          now rewrite (_walk_ext ui ui' 6 800 Hkids)).
    assert (Hgather : gather ui' fg = gather ui fg).
    { unfold gather. rewrite Hiter. apply fold_visit_ext.
      intros n Hn. apply Hrest. intros ->. contradiction. }
    unfold _collect_candidate_texts, bind, ret, emit, fst, snd.
    now rewrite Hgather.
Qed.

Lemma collector_skips_foreground_witness :
  kids_of (lone_window "Page 9") 0 = []
  /\ result (_collect_candidate_texts (lone_window "Page 9") (Val (Some 0)))
     = []
  /\ _collect_candidate_texts (lone_window "Line 4") (Val (Some 0))
     = _collect_candidate_texts (lone_window "Page 9") (Val (Some 0)).
Proof.
  destruct (collector_skips_foreground (lone_window "Page 9") 0) as [H1 H2].
  split; [reflexivity|]. split; [apply H1; reflexivity|].
  apply H2.
  - intros n. unfold lone_window. destruct (n =? 0); reflexivity.
  - intros n Hn. unfold lone_window.
    destruct (n =? 0) eqn:E; [apply Nat.eqb_eq in E; contradiction|reflexivity].
  - vm_compute. intros [].
Defined.

(** ** Sorting and deduplication *)

Lemma insert_by_prio_perm (c : cand) (l : list cand) :
  Permutation (insert_by_prio c l) (c :: l).
Proof.
  induction l as [|d r IH]; simpl; [reflexivity|].
  destruct (fst c <=? fst d)%Z; [reflexivity|].
  rewrite IH. apply perm_swap.
Qed.


Lemma insert_by_prio_sorted (c : cand) (l : list cand) :
  StronglySorted prio_le l -> StronglySorted prio_le (insert_by_prio c l).
Proof.
  induction 1 as [|d r Hr IH Hd]; simpl; [repeat constructor|].
  destruct (fst c <=? fst d)%Z eqn:E.
  - apply Z.leb_le in E. constructor; [now constructor|].
    constructor; [exact E|].
    eapply List.Forall_impl; [|exact Hd]. unfold prio_le. intros; lia.
  - apply Z.leb_gt in E. constructor; [exact IH|].
    eapply Permutation_Forall; [symmetry; apply insert_by_prio_perm|].
    constructor; [unfold prio_le; lia|exact Hd].
Qed.

Lemma sorted_by_prio_sorted (l : list cand) :
  StronglySorted prio_le (sorted_by_prio l).
Proof.
  induction l as [|c l IH]; simpl; [constructor|].
  now apply insert_by_prio_sorted.
Qed.



Lemma unique_from_In (l : list cand) :
  forall (seen : gset string) (c : cand),
    In c (unique_from seen l) -> In c l /\ snd c ∉ seen.
Proof.
  induction l as [|[pr s] r IH]; intros seen c; simpl; [tauto|].
  destruct (decide (s ∈ seen)) as [Hs|Hs].
  - intros Hc. apply IH in Hc. tauto.
  - intros [<-|Hc]; [auto|].
    apply IH in Hc as [Hc Hn]. split; [auto|].
    intros Hin. apply Hn. apply elem_of_union. now right.
Qed.

Lemma unique_from_NoDup (l : list cand) :
  forall seen : gset string, NoDup (map snd (unique_from seen l)).
Proof.
  induction l as [|[pr s] r IH]; intros seen; simpl; [constructor|].
  destruct (decide (s ∈ seen)); [apply IH|].
  simpl. apply NoDup_cons_2; [|apply IH].
  rewrite list_elem_of_In, in_map_iff. intros ([q t] & Ht & Hin).
  simpl in Ht. subst t. apply unique_from_In in Hin as [_ Hn].
  simpl in Hn. set_solver.
Qed.






Lemma unique_from_sorted (l : list cand) :
  forall seen : gset string,
    StronglySorted prio_le l -> StronglySorted prio_le (unique_from seen l).
Proof.
  induction l as [|[pr s] r IH]; intros seen Hl; simpl; [constructor|].
  inversion Hl as [|? ? Hr Hc]; subst.
  destruct (decide (s ∈ seen)); [now apply IH|].
  constructor; [now apply IH|].
  apply List.Forall_forall. intros y Hy.
  apply unique_from_In in Hy as [Hy _].
  rewrite List.Forall_forall in Hc. now apply Hc.
Qed.



(** ** The field matcher and the parser *)

Arguments bind : simpl never.

Lemma complete_true (out : gmap string string) :
  complete out = true
  <-> is_Some (out !! "page") /\ is_Some (out !! "line")
      /\ is_Some (out !! "col").
Proof.
  unfold complete. rewrite !andb_true_iff, !bool_decide_eq_true. tauto.
Qed.

Lemma bind_ret_l {A B : Type} (a : A) (f : A -> M B) : bind (ret a) f = f a.
Proof. unfold bind, ret. simpl. now destruct (f a). Qed.

Lemma bind_ret_r {A : Type} (m : M A) : bind m ret = m.
Proof. unfold bind, ret. destruct m. simpl. now rewrite app_nil_r. Qed.

Section Parsing.

Variable re_search : regex -> string -> option (list (option string)).

Lemma try_field_present (k : string) (pats : list regex) (t : string)
    (out : gmap string string) :
  is_Some (out !! k) -> try_field re_search k pats t out = ret out.
Proof. intros [v Hv]. unfold try_field. now rewrite Hv. Qed.

Lemma try_fields_complete (t : string) (out : gmap string string) :
  complete out = true -> try_fields re_search t out = ret out.
Proof.
  intros H. apply complete_true in H as (Hp & Hl & Hc).
  unfold try_fields.
  rewrite (try_field_present _ _ _ _ Hp), bind_ret_l.
  rewrite (try_field_present _ _ _ _ Hl), bind_ret_l.
  now apply try_field_present.
Qed.

Lemma each_text_complete (texts : list cand) (out : gmap string string) :
  complete out = true -> each_text re_search texts out = ret out.
Proof.
  intros H. destruct texts as [|[p t] r]; [reflexivity|].
  simpl. rewrite (try_fields_complete _ _ H), bind_ret_l. now rewrite H.
Qed.

Lemma each_text_cons (p : Z) (t : string) (r : list cand)
    (out : gmap string string) :
  each_text re_search ((p, t) :: r) out
  = bind (try_fields re_search t out)
         (fun o => if complete o then ret o else each_text re_search r o).
Proof. reflexivity. Qed.

(** Once the loop has all three fields it reads no further text. *)
Lemma each_text_app (l1 l2 : list cand) :
  forall out,
    complete (result (each_text re_search l1 out)) = true ->
    each_text re_search (l1 ++ l2) out = each_text re_search l1 out.
Proof.
  induction l1 as [|[p t] r IH]; intros out H.
  - simpl in H. simpl. now apply each_text_complete.
  - rewrite <- app_comm_cons, !each_text_cons in *.
    rewrite result_bind in H.
    apply M_eq; rewrite ?result_bind, ?calls_bind;
      destruct (complete (result (try_fields re_search t out)));
      try reflexivity; now rewrite IH.
Qed.

Lemma _match_first_number_calls (text : string) (pats : list regex) :
  Forall (is_search_on [text])
         (calls (_match_first_number re_search text pats)).
Proof.
  induction pats as [|pat rest IH]; [constructor|].
  simpl. constructor; [exists pat, text; simpl; auto|].
  destruct (re_search pat text) as [groups|]; [|exact IH].
  destruct (last_digit_group groups); [constructor|exact IH].
Qed.

Lemma is_search_on_incl (l1 l2 : list string) (t : list event) :
  incl l1 l2 -> Forall (is_search_on l1) t -> Forall (is_search_on l2) t.
Proof.
  intros Hincl. apply List.Forall_impl.
  intros e (pat & s & -> & Hs). exists pat, s. auto.
Qed.

Lemma try_field_calls (k : string) (pats : list regex) (t : string)
    (out : gmap string string) :
  Forall (is_search_on [t]) (calls (try_field re_search k pats t out)).
Proof.
  unfold try_field. destruct (out !! k); [constructor|].
  rewrite calls_bind. simpl. rewrite app_nil_r.
  apply _match_first_number_calls.
Qed.

Lemma try_fields_calls (t : string) (out : gmap string string) :
  Forall (is_search_on [t]) (calls (try_fields re_search t out)).
Proof.
  unfold try_fields. rewrite !calls_bind.
  repeat (apply Forall_app; split); apply try_field_calls.
Qed.

Lemma each_text_calls (texts : list cand) :
  forall out,
    Forall (is_search_on (map snd texts))
           (calls (each_text re_search texts out)).
Proof.
  induction texts as [|[p t] r IH]; intros out; [constructor|].
  rewrite each_text_cons, calls_bind. apply Forall_app. split.
  - eapply is_search_on_incl; [|apply try_fields_calls].
    intros s [<-|[]]. now left.
  - destruct (complete _); [constructor|].
    eapply is_search_on_incl; [|apply IH]. intros s Hs. now right.
Qed.

Lemma each_text_texts (t1 : list cand) :
  forall (t2 : list cand) out,
    map snd t1 = map snd t2 ->
    each_text re_search t1 out = each_text re_search t2 out.
Proof.
  induction t1 as [|[p1 s1] r1 IH]; intros [|[p2 s2] r2] out H;
    try discriminate; [reflexivity|].
  simpl in H. injection H as -> Hr. rewrite !each_text_cons.
  apply M_eq; rewrite ?result_bind, ?calls_bind;
    destruct (complete (result (try_fields re_search s2 out)));
    try reflexivity; now rewrite (IH r2).
Qed.

Lemma _parse_from_any_result (texts : list cand) :
  result (_parse_from_any re_search texts)
  = let out1 := result (each_text re_search texts ∅) in
    if complete out1 then out1
    else positional
           (Text.digit_runs (Text.join " | " (map snd texts)))
           (result (try_fields re_search
                      (Text.join " | " (map snd texts)) out1)).
Proof.
  unfold _parse_from_any. rewrite result_bind. simpl.
  destruct (complete (result (each_text re_search texts ∅))); reflexivity.
Qed.

(** C9: the parser reads the texts of the candidates and nothing else of
    them: two candidate lists with the same texts in the same order give
    the same ParsedStatus (and the same matching calls), whatever their
    priorities. *)
Theorem parse_ignores_priorities (texts1 texts2 : list cand) :
  map snd texts1 = map snd texts2 ->
  _parse_from_any re_search texts1 = _parse_from_any re_search texts2.
Proof.
  intros H. unfold _parse_from_any.
  rewrite (each_text_texts texts1 texts2 ∅ H), H. reflexivity.
Qed.

(** C4: when the per-candidate pass has all of page, line and column
    after the candidates [pre ++ [c]], the parser run on any longer list
    [pre ++ c :: suf] returns exactly what that pass returns on
    [pre ++ [c]] and makes exactly the calls that pass makes: searches on
    texts of [pre ++ [c]] only, none on a later candidate, none on the
    concatenated text, and no digit-run extraction. *)
Theorem parse_short_circuits (pre : list cand) (c : cand) (suf : list cand) :
  complete (result (each_text re_search (pre ++ [c]) ∅)) = true ->
  _parse_from_any re_search (pre ++ c :: suf)
  = each_text re_search (pre ++ [c]) ∅
  /\ Forall (is_search_on (map snd (pre ++ [c])))
            (calls (_parse_from_any re_search (pre ++ c :: suf))).
Proof.
  intros H.
  assert (E : _parse_from_any re_search (pre ++ c :: suf)
              = each_text re_search (pre ++ [c]) ∅).
  { unfold _parse_from_any.
    replace (pre ++ c :: suf) with ((pre ++ [c]) ++ suf)
      by now rewrite <- app_assoc.
    rewrite (each_text_app _ _ _ H).
    apply M_eq; rewrite ?result_bind, ?calls_bind, H; simpl;
      [reflexivity|apply app_nil_r]. }
  split; [exact E|]. rewrite E. apply each_text_calls.
Qed.

End Parsing.

Lemma parse_ignores_priorities_witness :
  map snd [(0%Z, "Str 7"); (2%Z, "Redak 9")]
  = map snd [(2%Z, "Str 7"); (1%Z, "Redak 9")]
  /\ _parse_from_any Re.search [(0%Z, "Str 7"); (2%Z, "Redak 9")]
     = _parse_from_any Re.search [(2%Z, "Str 7"); (1%Z, "Redak 9")].
Proof.
  split; [reflexivity|].
  apply (parse_ignores_priorities Re.search). reflexivity.
Defined.

Lemma parse_short_circuits_witness :
  complete
    (result (each_text Re.search
               ([(2%Z, "Str 7")] ++ [(0%Z, "Line 12 Col 3")]) ∅)) = true
  /\ _parse_from_any Re.search
       ([(2%Z, "Str 7")] ++ (0%Z, "Line 12 Col 3") :: [(2%Z, "Page 9 C1")])
     = each_text Re.search ([(2%Z, "Str 7")] ++ [(0%Z, "Line 12 Col 3")]) ∅.
Proof.
  split; [vm_compute; reflexivity|].
  apply (parse_short_circuits Re.search [(2%Z, "Str 7")]
           (0%Z, "Line 12 Col 3") [(2%Z, "Page 9 C1")]).
  vm_compute. reflexivity.
Defined.

(** ** Digit strings *)


Lemma isdigit_nonempty (s : string) :
  Text.isdigit s = true ->
  s <> EmptyString /\ Text.all_chars Text.isdigit_char s = true.
Proof.
  unfold Text.isdigit. intros H. apply andb_true_iff in H as [Hn Hd].
  split; [|exact Hd]. intros ->. discriminate.
Qed.



Lemma first_digit_group_digit (groups : list (option string)) (g : string) :
  first_digit_group groups = Some g -> Text.isdigit g = true.
Proof.
  induction groups as [|h r IH]; simpl; [discriminate|].
  destruct h as [s|]; simpl; [|exact IH].
  destruct (negb (Text.is_empty s) && Text.isdigit s) eqn:E; [|exact IH].
  intros [= ->]. now apply andb_true_iff in E.
Qed.


Lemma setdefault_lookup (k v k' : string) (out : gmap string string) :
  setdefault k v out !! k'
  = match out !! k' with
    | Some x => Some x
    | None => if decide (k = k') then Some v else None
    end.
Proof.
  unfold setdefault. destruct (out !! k) as [x|] eqn:E.
  - destruct (out !! k') eqn:E'; [reflexivity|].
    destruct (decide (k = k')) as [->|]; [congruence|reflexivity].
  - rewrite lookup_insert. destruct (decide (k = k')) as [->|].
    + now rewrite E.
    + now destruct (out !! k').
Qed.

Section Fields.

Variable re_search : regex -> string -> option (list (option string)).

Lemma _match_first_number_cons (text : string) (pat : regex)
    (rest : list regex) :
  _match_first_number re_search text (pat :: rest)
  = bind (search re_search pat text)
         (fun m =>
            match m with
            | Some groups =>
                match last_digit_group groups with
                | Some g => ret (Some g)
                | None => _match_first_number re_search text rest
                end
            | None => _match_first_number re_search text rest
            end).
Proof. reflexivity. Qed.

Lemma search_result (pat : regex) (text : string) :
  result (search re_search pat text) = re_search pat text.
Proof. reflexivity. Qed.




Lemma _match_first_number_digit (text : string) (patterns : list regex)
    (g : string) :
  result (_match_first_number re_search text patterns) = Some g ->
  Text.isdigit g = true.
Proof.
  induction patterns as [|pat rest IH]; [discriminate|].
  rewrite _match_first_number_cons, result_bind, search_result.
  destruct (re_search pat text) as [groups|]; [|exact IH].
  destruct (last_digit_group groups) as [g'|] eqn:E; [|exact IH].
  intros [= <-]. unfold last_digit_group in E.
  now apply first_digit_group_digit in E.
Qed.

Lemma try_field_result (k : string) (pats : list regex) (t : string)
    (out : gmap string string) :
  result (try_field re_search k pats t out)
  = match out !! k with
    | Some _ => out
    | None =>
        match result (_match_first_number re_search t pats) with
        | Some v => <[k := v]> out
        | None => out
        end
    end.
Proof.
  unfold try_field. destruct (out !! k); [reflexivity|].
  rewrite result_bind. simpl.
  destruct (result (_match_first_number re_search t pats)) as [v|] eqn:E;
    [|reflexivity].
  apply _match_first_number_digit, isdigit_nonempty in E as [E _].
  destruct v; [contradiction|reflexivity].
Qed.




Lemma positional_lookup (nums : list string) (out : gmap string string)
    (k : string) :
  positional nums out !! k
  = match out !! k with
    | Some v => Some v
    | None =>
        if 3 <=? length nums then
          if decide (k = "page") then Some (nth 0 nums "")
          else if decide (k = "line") then Some (nth 1 nums "")
          else if decide (k = "col") then Some (nth 2 nums "")
          else None
        else None
    end.
Proof.
  unfold positional. destruct (3 <=? length nums).
  - rewrite !setdefault_lookup. destruct (out !! k); [reflexivity|].
    repeat match goal with
           | |- context [decide (?a = ?b)] =>
               destruct (decide (a = b)); try congruence
           end.
  - now destruct (out !! k).
Qed.





End Fields.



(** ** The direct status accessor *)

Section Accessor.

Variable getStatusBarText : nat -> read (option string).

Lemma attempt_S (i left : nat) :
  attempt getStatusBarText i (S left)
  = if blank (getStatusBarText i)
    then (result (attempt getStatusBarText (S i) left),
          failed_round (getStatusBarText i)
          ++ calls (attempt getStatusBarText (S i) left))
    else (option_map Text.normalize
            (match getStatusBarText i with Val t => t | Raises => None end),
          [EvGetStatusBarText]).
Proof.
  simpl. destruct (getStatusBarText i) as [|[t|]]; simpl; try reflexivity.
  destruct t as [|c t]; simpl; [reflexivity|].
  destruct (Text.is_empty (Text.strip (String c t))); reflexivity.
Qed.



Lemma attempt_silent (left : nat) :
  forall i, spoken (calls (attempt getStatusBarText i left)) = [].
Proof.
  induction left as [|left IH]; intros i; [reflexivity|].
  rewrite attempt_S. destruct (blank (getStatusBarText i)); [|reflexivity].
  simpl. rewrite spoken_app, IH.
  destruct (getStatusBarText i); reflexivity.
Qed.


End Accessor.



(** ** The reports *)

Lemma spoken_search_only (texts : list string) (t : list event) :
  Forall (is_search_on texts) t -> spoken t = [].
Proof.
  induction 1 as [|e t (pat & s & -> & _) _ IH]; [reflexivity|exact IH].
Qed.

Section Reports.

Variable re_search : regex -> string -> option (list (option string)).
Variable ui : ui_tree.
Variable getForegroundObject : read (option node).
Variable getStatusBarText : nat -> read (option string).

Lemma _match_first_number_silent (text : string) (pats : list regex) :
  spoken (calls (_match_first_number re_search text pats)) = [].
Proof.
  eapply spoken_search_only, _match_first_number_calls.
Qed.

Lemma _parse_from_any_silent (texts : list cand) :
  spoken (calls (_parse_from_any re_search texts)) = [].
Proof.
  unfold _parse_from_any. rewrite calls_bind, spoken_app.
  rewrite (spoken_search_only _ _ (each_text_calls re_search texts ∅)).
  destruct (complete _); [reflexivity|].
  rewrite calls_bind, spoken_app.
  rewrite (spoken_search_only _ _ (try_fields_calls re_search _ _)).
  reflexivity.
Qed.

Lemma _collect_candidate_texts_calls :
  calls (_collect_candidate_texts ui getForegroundObject)
  = match getForegroundObject with
    | Val _ => [EvGetForegroundObject]
    | Raises => [EvGetForegroundObject; EvLogDebug]
    end.
Proof.
  unfold _collect_candidate_texts.
  destruct getForegroundObject as [|[fg|]]; reflexivity.
Qed.

Lemma ui_scan_silent :
  spoken (calls (ui_scan re_search ui getForegroundObject)) = [].
Proof.
  unfold ui_scan.
  rewrite calls_bind, spoken_app, _parse_from_any_silent,
    _collect_candidate_texts_calls.
  destruct getForegroundObject; reflexivity.
Qed.


(** C6: when the built-in report raises and the direct accessor gives no
    text, the full status report speaks exactly one message: the fields
    the scan resolved, as "Page P", "Line L", "Column C" in this order
    and joined by ", "; or "Status bar not available." when the scan
    resolved none of the three. *)
Theorem report_status_fallback_spec :
  truthy (result (_get_status_text_api getStatusBarText)) = false ->
  let parsed := result (ui_scan re_search ui getForegroundObject) in
  spoken (calls (script_reportDuxburyStatus re_search ui getForegroundObject
                   getStatusBarText Raises))
  = [ match parsed !! "page", parsed !! "line", parsed !! "col" with
      | Some p, Some l, Some c =>
          "Page " ++ p ++ ", Line " ++ l ++ ", Column " ++ c
      | Some p, Some l, None => "Page " ++ p ++ ", Line " ++ l
      | Some p, None, Some c => "Page " ++ p ++ ", Column " ++ c
      | Some p, None, None => "Page " ++ p
      | None, Some l, Some c => "Line " ++ l ++ ", Column " ++ c
      | None, Some l, None => "Line " ++ l
      | None, None, Some c => "Column " ++ c
      | None, None, None => "Status bar not available."
      end%string ].
Proof.
  intros Hdirect parsed. unfold script_reportDuxburyStatus.
  rewrite !calls_bind, !spoken_app. simpl calls at 1 2. simpl spoken at 1 2.
  rewrite Hdirect, calls_bind, spoken_app.
  unfold _get_status_text_api. rewrite attempt_silent, ui_scan_silent.
  fold parsed. simpl app.
  destruct (bool_decide (parsed = ∅)) eqn:Hempty.
  - apply bool_decide_eq_true in Hempty. rewrite Hempty, !lookup_empty.
    reflexivity.
  - unfold parts_of.
    destruct (parsed !! "page"), (parsed !! "line"), (parsed !! "col");
      reflexivity.
Qed.

Lemma attempt_no_foreground (left : nat) :
  forall i,
    ~ In EvGetForegroundObject (calls (attempt getStatusBarText i left)).
Proof.
  induction left as [|left IH]; intros i; [intros []|].
  rewrite attempt_S. destruct (blank (getStatusBarText i)).
  - simpl. intros H. apply in_app_or in H as [H|H]; [|now apply IH in H].
    destruct (getStatusBarText i); simpl in H;
      repeat (destruct H as [H|H]; [discriminate|]); exact H.
  - simpl. intros [H|[]]. discriminate.
Qed.






End Reports.

Lemma report_status_fallback_spec_witness :
  truthy (result (_get_status_text_api (always Raises))) = false
  /\ spoken (calls (script_reportDuxburyStatus Re.search status_tree
                      (Val (Some 0)) (always Raises) Raises))
     = ["Page 5, Line 12, Column 3"]
  /\ spoken (calls (script_reportDuxburyStatus Re.search status_tree
                      (Val None) (always Raises) Raises))
     = ["Status bar not available."].
Proof.
  split; [reflexivity|]. split.
  - rewrite (report_status_fallback_spec Re.search status_tree (Val (Some 0))
               (always Raises)) by reflexivity.
    vm_compute. reflexivity.
  - rewrite (report_status_fallback_spec Re.search status_tree (Val None)
               (always Raises)) by reflexivity.
    vm_compute. reflexivity.
Defined.


(* ===================================================================== *)
(** * Further properties of the code                                      *)
(* ===================================================================== *)

(** ** Whitespace normalization *)













Lemma lstrip_empty (s : string) :
  Text.is_empty (Text.lstrip s) = Text.all_chars Text.isspace s.
Proof.
  induction s as [|c r IH]; [reflexivity|].
  simpl. destruct (Text.isspace c); [exact IH|reflexivity].
Qed.

Lemma lstrip_all_space (s : string) :
  Text.all_chars Text.isspace (Text.lstrip s) = Text.all_chars Text.isspace s.
Proof.
  induction s as [|c r IH]; [reflexivity|].
  simpl. destruct (Text.isspace c) eqn:Ec; [exact IH|]. simpl. now rewrite Ec.
Qed.

Lemma rstrip_empty (s : string) :
  Text.is_empty (Text.rstrip s) = Text.all_chars Text.isspace s.
Proof.
  induction s as [|c r IH]; [reflexivity|].
  simpl. rewrite <- IH.
  destruct (Text.isspace c && Text.is_empty (Text.rstrip r)) eqn:E;
    [reflexivity|]. reflexivity.
Qed.

Lemma collapse_all_space (s : string) :
  Text.all_chars Text.isspace (Text.collapse_ws s)
  = Text.all_chars Text.isspace s.
Proof.
  induction s as [|c r IH]; [reflexivity|].
  simpl. destruct (Text.isspace c) eqn:Ec; [|simpl; now rewrite Ec, IH].
  destruct r as [|d r']; [reflexivity|].
  destruct (Text.isspace d) eqn:Ed.
  - rewrite IH. simpl. now rewrite Ed.
  - change (Text.all_chars Text.isspace
              (String " " (Text.collapse_ws (String d r')))
            = Text.all_chars Text.isspace (String d r')).
    remember (Text.collapse_ws (String d r')) as cw eqn:Ecw in *.
    simpl. rewrite IH. simpl. now rewrite Ed.
Qed.

Lemma strip_empty (s : string) :
  Text.is_empty (Text.strip s) = Text.all_chars Text.isspace s.
Proof. unfold Text.strip. now rewrite rstrip_empty, lstrip_all_space. Qed.

Lemma normalize_empty (s : string) :
  Text.is_empty (Text.normalize s) = Text.all_chars Text.isspace s.
Proof. unfold Text.normalize. now rewrite strip_empty, collapse_all_space. Qed.






(** ** What the collector appends *)

(** The candidate one attribute text gives. *)
Lemma _add_spec (txt : option string) (prio : Z) (candidates : list cand) :
  _add txt prio candidates
  = candidates
    ++ match txt with
       | Some t => if Text.all_chars Text.isspace t then []
                   else [(prio, Text.normalize t)]
       | None => []
       end.
Proof.
  unfold _add. destruct txt as [t|]; [|now rewrite app_nil_r].
  destruct t as [|c t]; [now rewrite app_nil_r|].
  cbn [Text.is_empty]. rewrite normalize_empty.
  destruct (Text.all_chars Text.isspace (String c t));
    [now rewrite app_nil_r|reflexivity].
Qed.

Lemma add_attrs_app (reads : list (read (option string))) (prio : Z) :
  forall candidates,
    add_attrs reads prio candidates = candidates ++ add_attrs reads prio [].
Proof.
  induction reads as [|[|txt] rest IH]; intros candidates; simpl;
    try now rewrite app_nil_r.
  rewrite IH, (IH (_add txt prio [])), (_add_spec txt prio candidates),
    (_add_spec txt prio []).
  simpl. now rewrite app_assoc.
Qed.

Lemma visit_app (o : NVDAObject) (candidates : list cand) :
  visit o candidates = candidates ++ visit o [].
Proof.
  unfold visit.
  destruct (role o) as [|[[|code]|]]; try (now rewrite app_nil_r);
    try apply add_attrs_app;
    destruct (windowClassName o); try (now rewrite app_nil_r);
    apply add_attrs_app.
Qed.

Lemma fold_visit_flat_map (ui : ui_tree) (ns : list node) :
  forall acc,
    fold_left (fun candidates n => visit (ui n) candidates) ns acc
    = acc ++ flat_map (fun n => visit (ui n) []) ns.
Proof.
  induction ns as [|n ns IH]; intros acc; simpl; [now rewrite app_nil_r|].
  rewrite IH, visit_app. now rewrite app_assoc.
Qed.

(** X4: a node never changes what was collected before it: the
    candidates gathered are, in traversal order, what each yielded node
    gives on its own. *)
Theorem gather_flat_map (ui : ui_tree) (fg : node) :
  gather ui fg
  = flat_map (fun n => visit (ui n) []) (_iter_children ui (Some fg) 6 800).
Proof. unfold gather. now rewrite fold_visit_flat_map. Qed.

(** X5: when reading an attribute raises, the node keeps the candidates
    of the attributes read before it and gives none for that attribute
    or the ones after it; and a node whose [role] or [windowClassName]
    cannot be read gives none at all. *)
Theorem attribute_failure_is_local (o : NVDAObject) (prio : Z)
    (before after : list (read (option string))) :
  add_attrs (before ++ Raises :: after) prio [] = add_attrs before prio []
  /\ (role o = Raises -> visit o [] = [])
  /\ (role o <> Val (Some STATUSBAR) -> windowClassName o = Raises ->
      visit o [] = []).
Proof.
  split; [|split].
  - generalize (@nil cand).
    induction before as [|[|txt] rest IH]; intros acc; simpl; auto.
  - unfold visit. now intros ->.
  - unfold visit. intros Hrole ->.
    destruct (role o) as [|[[|code]|]]; try reflexivity. congruence.
Qed.

Lemma attribute_failure_is_local_witness :
  add_attrs ([Val (Some "Page 5")] ++ Raises :: [Val (Some "Line 2")]) 0%Z []
  = [(0%Z, "Page 5")]
  /\ visit {| role := Raises; windowClassName := Val None;
              name := Val (Some "Page 5"); value := Val None;
              windowText := Val None; description := Val None;
              children := Val [] |} [] = []
  /\ visit {| role := Val None; windowClassName := Raises;
              name := Val (Some "Page 5"); value := Val None;
              windowText := Val None; description := Val None;
              children := Val [] |} [] = [].
Proof.
  split; [|split].
  - rewrite (proj1 (attribute_failure_is_local blank_object 0%Z
                      [Val (Some "Page 5")] [Val (Some "Line 2")])).
    reflexivity.
  - apply (proj1 (proj2 (attribute_failure_is_local _ 0%Z [] []))).
    reflexivity.
  - apply (proj2 (proj2 (attribute_failure_is_local _ 0%Z [] [])));
      [discriminate|reflexivity].
Defined.





(** ** What the limits of the traversal do give *)

Lemma _walk_bound (ui : ui_tree) (max_depth max_nodes b : nat) :
  max_kids ui b ->
  forall fuel (n : option node) (depth count : nat) ys c,
    depth <= max_depth + 1 ->
    _walk ui max_depth max_nodes fuel n depth count = Some (ys, c) ->
    c <= Nat.max count (max_nodes + b * (max_depth + 1 - depth)).
Proof.
  intros Hb fuel.
  induction fuel as [|f IH]; intros n depth count ys c Hd; [discriminate|].
  simpl. destruct n as [n|]; [|intros [= <- <-]; lia].
  destruct ((max_depth <? depth) || (max_nodes <=? count)) eqn:Hstop;
    [intros [= <- <-]; lia|].
  apply orb_false_iff in Hstop as [Hdepth Hcount].
  apply Nat.ltb_ge in Hdepth. apply Nat.leb_gt in Hcount.
  pose proof (Hb n) as Hlen. revert Hlen.
  generalize (kids_of ui n) as kids. intros kids Hlen Hrun.
  set (B := max_nodes + b * (max_depth + 1 - (depth + 1))).
  assert (Hloop : c <= Nat.max count B + length kids).
  { clear Hcount Hlen. revert count ys c Hrun.
    induction kids as [|k kids IHk]; intros count ys c;
      [intros [= <- <-]; lia|].
    destruct (_walk ui max_depth max_nodes f (Some k) (depth + 1) (count + 1))
      as [[below c1]|] eqn:Hk; [|discriminate].
    match goal with
    | |- context [?loop kids c1] =>
        destruct (loop kids c1) as [[later c2]|] eqn:Hl
    end; [|discriminate].
    intros [= <- <-].
    apply IH in Hk; [|lia]. apply IHk in Hl. fold B in Hk. simpl. lia. }
  subst B.
  replace (max_depth + 1 - depth) with (S (max_depth + 1 - (depth + 1)))
    by lia.
  nia.
Qed.

(** X7: the traversal returns for every object store, a cyclic one
    included, and every node it yields lies between 1 and
    [max_depth + 1] child steps below the root. *)
Theorem traversal_returns_within_depth (ui : ui_tree) (root : node)
    (max_depth max_nodes : nat) :
  (forall fuel, max_depth + 2 <= fuel ->
     _walk ui max_depth max_nodes fuel (Some root) 0 0
     = Some (_iter_children_run ui (Some root) max_depth max_nodes))
  /\ (forall y, In y (_iter_children ui (Some root) max_depth max_nodes) ->
        exists d, 1 <= d <= max_depth + 1 /\ reach ui d root y).
Proof.
  split; [apply _iter_children_terminates|apply _iter_children_depth].
Qed.

Lemma traversal_returns_within_depth_witness :
  _walk looping_tree 6 800 20 (Some 0) 0 0
  = Some (_iter_children_run looping_tree (Some 0) 6 800)
  /\ exists d, 1 <= d <= 6 + 1 /\ reach chain_tree d 0 7.
Proof.
  destruct (traversal_returns_within_depth looping_tree 0 6 800) as [H _].
  destruct (traversal_returns_within_depth chain_tree 0 6 800) as [_ H'].
  split; [apply H; lia|]. apply H'. vm_compute. tauto.
Defined.

(** X8: when no object lists more than [b] children, the traversal
    yields at most [max_nodes + b * (max_depth + 1)] nodes, and the final
    [count] is the number of nodes yielded. *)
Theorem traversal_count_bound (ui : ui_tree) (root : option node)
    (max_depth max_nodes b : nat) :
  max_kids ui b ->
  length (_iter_children ui root max_depth max_nodes)
  <= max_nodes + b * (max_depth + 1)
  /\ snd (_iter_children_run ui root max_depth max_nodes)
     = length (_iter_children ui root max_depth max_nodes).
Proof.
  intros Hb. split; [|apply _iter_children_count].
  rewrite <- _iter_children_count.
  pose proof (_iter_children_terminates ui root max_depth max_nodes
                (max_depth + 2) (Nat.le_refl _)) as H.
  destruct (_iter_children_run ui root max_depth max_nodes) as [ys c].
  apply (_walk_bound ui max_depth max_nodes b Hb) in H; [|lia].
  simpl. rewrite Nat.sub_0_r in H. lia.
Qed.

Lemma traversal_count_bound_witness :
  max_kids looping_tree 3
  /\ length (_iter_children looping_tree (Some 0) 6 800) <= 800 + 3 * (6 + 1).
Proof.
  assert (H : max_kids looping_tree 3) by (intros n; simpl; lia).
  split; [exact H|].
  exact (proj1 (traversal_count_bound looping_tree (Some 0) 6 800 3 H)).
Defined.

(** ** More on the matcher and the parser *)

Section ParserFacts.

Variable re_search : regex -> string -> option (list (option string)).

Lemma try_field_mono (k : string) (pats : list regex) (t : string)
    (out : gmap string string) (k' v : string) :
  out !! k' = Some v ->
  result (try_field re_search k pats t out) !! k' = Some v.
Proof.
  intros H. rewrite try_field_result.
  destruct (out !! k) eqn:E; [exact H|].
  destruct (result (_match_first_number re_search t pats)); [|exact H].
  rewrite lookup_insert_ne; [exact H|]. intros ->. congruence.
Qed.

Lemma try_fields_mono (t : string) (out : gmap string string)
    (k v : string) :
  out !! k = Some v -> result (try_fields re_search t out) !! k = Some v.
Proof.
  intros H. unfold try_fields. rewrite !result_bind.
  now repeat apply try_field_mono.
Qed.

Lemma each_text_mono (texts : list cand) :
  forall (out : gmap string string) (k v : string),
    out !! k = Some v ->
    result (each_text re_search texts out) !! k = Some v.
Proof.
  induction texts as [|[p t] r IH]; intros out k v H; [exact H|].
  rewrite each_text_cons, result_bind.
  pose proof (try_fields_mono t out k v H) as Ht.
  destruct (complete (result (try_fields re_search t out)));
    [exact Ht|now apply IH].
Qed.

Lemma _parse_from_any_mono (texts : list cand) (k v : string) :
  result (each_text re_search texts ∅) !! k = Some v ->
  result (_parse_from_any re_search texts) !! k = Some v.
Proof.
  intros H. rewrite _parse_from_any_result. cbv zeta.
  destruct (complete (result (each_text re_search texts ∅))); [exact H|].
  rewrite positional_lookup.
  now rewrite (try_fields_mono _ _ _ _ H).
Qed.

(** X9: the parser only ever adds fields: a field present before the
    per-candidate pass is still there, with its value, after it, and a
    field that pass resolved has the same value in the parser's
    result. *)
Theorem parser_keeps_fields (texts : list cand) (k v : string) :
  (forall out : gmap string string,
      out !! k = Some v ->
      result (each_text re_search texts out) !! k = Some v)
  /\ (result (each_text re_search texts ∅) !! k = Some v ->
      result (_parse_from_any re_search texts) !! k = Some v).
Proof.
  split; [intros out; apply each_text_mono|apply _parse_from_any_mono].
Qed.

Lemma try_field_fresh (k : string) (pats : list regex) (t : string)
    (out : gmap string string) (v : string) :
  out !! k = None ->
  result (_match_first_number re_search t pats) = Some v ->
  result (try_field re_search k pats t out) !! k = Some v.
Proof.
  intros Hk Hv. rewrite try_field_result, Hk, Hv. apply lookup_insert_eq.
Qed.

Lemma try_field_other (k : string) (pats : list regex) (t : string)
    (out : gmap string string) (k' : string) :
  k <> k' -> out !! k' = None ->
  result (try_field re_search k pats t out) !! k' = None.
Proof.
  intros Hne Hk'. rewrite try_field_result.
  destruct (out !! k); [exact Hk'|].
  destruct (result (_match_first_number re_search t pats)); [|exact Hk'].
  now rewrite lookup_insert_ne.
Qed.

(** X10: the strongest candidate decides: a number that a field's
    patterns find in the text of the first candidate is that field's
    value in the parser's result, whatever the other candidates hold. *)
Theorem first_candidate_wins (p : Z) (t : string) (rest : list cand)
    (v : string) :
  (result (_match_first_number re_search t _PAGE_PATTERNS) = Some v ->
   result (_parse_from_any re_search ((p, t) :: rest)) !! "page" = Some v)
  /\ (result (_match_first_number re_search t _LINE_PATTERNS) = Some v ->
      result (_parse_from_any re_search ((p, t) :: rest)) !! "line" = Some v)
  /\ (result (_match_first_number re_search t _COL_PATTERNS) = Some v ->
      result (_parse_from_any re_search ((p, t) :: rest)) !! "col" = Some v).
Proof.
  assert (Hstep : forall k,
    result (try_fields re_search t ∅) !! k = Some v ->
    result (_parse_from_any re_search ((p, t) :: rest)) !! k = Some v).
  { intros k H. apply _parse_from_any_mono.
    rewrite each_text_cons, result_bind.
    destruct (complete (result (try_fields re_search t ∅)));
      [exact H|now apply each_text_mono]. }
  repeat split; intros Hv; apply Hstep; unfold try_fields;
    rewrite !result_bind.
  - do 2 apply try_field_mono. apply try_field_fresh; [apply lookup_empty|].
    exact Hv.
  - apply try_field_mono. apply try_field_fresh; [|exact Hv].
    apply try_field_other; [discriminate|apply lookup_empty].
  - apply try_field_fresh; [|exact Hv].
    apply try_field_other; [discriminate|].
    apply try_field_other; [discriminate|apply lookup_empty].
Qed.

(** X11: the matcher returns [None] exactly when no pattern of the list
    both matches and has a digit group in its match; a pattern that
    matches without one does not stop the search. *)
Theorem match_first_number_none (text : string) (patterns : list regex) :
  result (_match_first_number re_search text patterns) = None
  <-> Forall (fun pat =>
                match re_search pat text with
                | Some groups => last_digit_group groups = None
                | None => True
                end) patterns.
Proof.
  induction patterns as [|pat rest IH].
  - split; [constructor|reflexivity].
  - rewrite _match_first_number_cons, result_bind, search_result.
    destruct (re_search pat text) as [groups|] eqn:E.
    + destruct (last_digit_group groups) as [g|] eqn:Eg.
      * split; [discriminate|].
        intros H. inversion H as [|? ? H1 _]; subst.
        rewrite E in H1. congruence.
      * rewrite IH. split.
        -- intros H. constructor; [now rewrite E|exact H].
        -- intros H. now inversion H.
    + rewrite IH. split.
      * intros H. constructor; [now rewrite E|exact H].
      * intros H. now inversion H.
Qed.

Lemma try_field_keys (k : string) (pats : list regex) (t : string)
    (out : gmap string string) :
  k = "page" \/ k = "line" \/ k = "col" ->
  fields_only out ->
  fields_only (result (try_field re_search k pats t out)).
Proof.
  intros Hk Hout. rewrite try_field_result.
  destruct (out !! k); [exact Hout|].
  destruct (result (_match_first_number re_search t pats)); [|exact Hout].
  intros k'. rewrite lookup_insert.
  destruct (decide (k = k')) as [<-|]; [auto|apply Hout].
Qed.

Lemma try_fields_keys (t : string) (out : gmap string string) :
  fields_only out -> fields_only (result (try_fields re_search t out)).
Proof.
  intros Hout. unfold try_fields. rewrite !result_bind.
  repeat apply try_field_keys; auto.
Qed.

Lemma each_text_keys (texts : list cand) :
  forall out,
    fields_only out -> fields_only (result (each_text re_search texts out)).
Proof.
  induction texts as [|[p t] r IH]; intros out Hout; [exact Hout|].
  rewrite each_text_cons, result_bind.
  pose proof (try_fields_keys t out Hout) as Ht.
  destruct (complete (result (try_fields re_search t out)));
    [exact Ht|now apply IH].
Qed.

Lemma positional_keys (nums : list string) (out : gmap string string) :
  fields_only out -> fields_only (positional nums out).
Proof.
  intros Hout k. rewrite positional_lookup.
  destruct (out !! k) eqn:E; [intros _; apply Hout; now rewrite E|].
  destruct (3 <=? length nums); [|intros [? [=]]].
  repeat match goal with
         | |- context [decide (?a = ?b)] => destruct (decide (a = b)); auto
         end.
  intros [? [=]].
Qed.

Lemma _parse_from_any_keys (texts : list cand) :
  fields_only (result (_parse_from_any re_search texts)).
Proof.
  rewrite _parse_from_any_result. cbv zeta.
  assert (H : fields_only (result (each_text re_search texts ∅))).
  { apply each_text_keys. intros k [v Hv]. now rewrite lookup_empty in Hv. }
  destruct (complete (result (each_text re_search texts ∅))); [exact H|].
  now apply positional_keys, try_fields_keys.
Qed.

Lemma parts_of_nonempty (parsed : gmap string string) :
  fields_only parsed -> parsed <> ∅ -> parts_of parsed <> [].
Proof.
  intros Hkeys Hne. apply map_choose in Hne as (k & v & Hk).
  unfold parts_of.
  destruct (Hkeys k) as [->|[->| ->]]; [eauto| | |];
    rewrite Hk; destruct (parsed !! "page"); try discriminate;
    destruct (parsed !! "line"); discriminate.
Qed.

(** X12: the parser's result has no key besides "page", "line" and
    "col"; so a non-empty result always gives at least one phrase of the
    summary, and the test [if parsed:] of the reports and the test
    [if parts:] agree. *)
Theorem parser_result_fields (texts : list cand) :
  fields_only (result (_parse_from_any re_search texts))
  /\ (result (_parse_from_any re_search texts) <> ∅ ->
      parts_of (result (_parse_from_any re_search texts)) <> []).
Proof.
  split; [apply _parse_from_any_keys|].
  apply parts_of_nonempty, _parse_from_any_keys.
Qed.

Lemma _match_first_number_unmatched (text : string) (pats : list regex) :
  Forall (fun pat => re_search pat text = None) pats ->
  result (_match_first_number re_search text pats) = None.
Proof.
  induction 1 as [|pat rest Hp _ IH]; [reflexivity|].
  now rewrite _match_first_number_cons, result_bind, search_result, Hp.
Qed.

Lemma try_fields_unmatched (text : string) (out : gmap string string) :
  unmatched re_search text -> result (try_fields re_search text out) = out.
Proof.
  unfold unmatched. rewrite !Forall_app. intros (Hp & Hl & Hc).
  unfold try_fields. rewrite !result_bind, !try_field_result.
  rewrite !(_match_first_number_unmatched _ _ Hp),
    !(_match_first_number_unmatched _ _ Hl),
    !(_match_first_number_unmatched _ _ Hc).
  destruct (out !! "page"), (out !! "line"), (out !! "col"); reflexivity.
Qed.

(** On an empty candidate list, and with patterns that do not match the
    empty text, the parser returns the empty result. *)
Lemma parse_no_candidates :
  unmatched re_search "" -> result (_parse_from_any re_search []) = ∅.
Proof.
  intros H. rewrite _parse_from_any_result. cbv zeta.
  change (result (each_text re_search [] ∅)) with (∅ : gmap string string).
  change (Text.join " | " (map snd [])) with "".
  rewrite (try_fields_unmatched "" ∅ H). reflexivity.
Qed.

End ParserFacts.

Lemma parser_keeps_fields_witness :
  ({["page" := "7"]} : gmap string string) !! "page" = Some "7"
  /\ result (each_text Re.search [(2%Z, "Page 9 Line 4")] {["page" := "7"]})
     !! "page" = Some "7".
Proof.
  split; [reflexivity|].
  apply (proj1 (parser_keeps_fields Re.search [(2%Z, "Page 9 Line 4")]
                  "page" "7")).
  reflexivity.
Defined.

Lemma first_candidate_wins_witness :
  result (_match_first_number Re.search "Str 7" _PAGE_PATTERNS) = Some "7"
  /\ result (_parse_from_any Re.search
               [(0%Z, "Str 7"); (2%Z, "Page 9 Line 4 Col 1")]) !! "page"
     = Some "7".
Proof.
  assert (H : result (_match_first_number Re.search "Str 7" _PAGE_PATTERNS)
              = Some "7") by (vm_compute; reflexivity).
  split; [exact H|].
  exact (proj1 (first_candidate_wins Re.search 0%Z "Str 7"
                  [(2%Z, "Page 9 Line 4 Col 1")] "7") H).
Defined.

Lemma parser_result_fields_witness :
  result (_parse_from_any Re.search [(0%Z, "Str 7")]) <> ∅
  /\ parts_of (result (_parse_from_any Re.search [(0%Z, "Str 7")])) <> [].
Proof.
  assert (H : result (_parse_from_any Re.search [(0%Z, "Str 7")]) <> ∅).
  { intros E.
    assert (E' : result (_parse_from_any Re.search [(0%Z, "Str 7")])
                 !! "page" = None) by (rewrite E; apply lookup_empty).
    vm_compute in E'. discriminate. }
  split; [exact H|].
  exact (proj2 (parser_result_fields Re.search [(0%Z, "Str 7")]) H).
Defined.

Lemma parse_no_candidates_witness :
  unmatched Re.search "" /\ result (_parse_from_any Re.search []) = ∅.
Proof.
  assert (H : unmatched Re.search "").
  { unfold unmatched. repeat constructor. }
  split; [exact H|]. exact (parse_no_candidates Re.search H).
Defined.

Lemma match_first_number_none_witness :
  Forall (fun pat =>
            match Re.search pat "Status: ready" with
            | Some groups => last_digit_group groups = None
            | None => True
            end) _LINE_PATTERNS
  /\ result (_match_first_number Re.search "Status: ready" _LINE_PATTERNS)
     = None.
Proof.
  assert (H : Forall (fun pat =>
                match Re.search pat "Status: ready" with
                | Some groups => last_digit_group groups = None
                | None => True
                end) _LINE_PATTERNS)
    by (repeat constructor).
  split; [exact H|].
  exact (proj2 (match_first_number_none Re.search "Status: ready"
                  _LINE_PATTERNS) H).
Defined.

(** ** More on the direct status accessor *)

Section AccessorFacts.

Variable getStatusBarText : nat -> read (option string).

Lemma attempt_result (left : nat) :
  forall i r,
    result (attempt getStatusBarText i left) = Some r ->
    exists j raw,
      i <= j < i + left
      /\ getStatusBarText j = Val (Some raw)
      /\ Text.is_empty (Text.strip raw) = false
      /\ r = Text.normalize raw.
Proof.
  induction left as [|left IH]; intros i r; [discriminate|].
  rewrite attempt_S.
  destruct (blank (getStatusBarText i)) eqn:Eb.
  - unfold result at 1. simpl fst. intros H.
    destruct (IH _ _ H) as (j & raw & Hj & Hget & Hraw & ->).
    exists j, raw. repeat split; auto; lia.
  - destruct (getStatusBarText i) as [|[raw|]] eqn:Eg; try discriminate.
    simpl. intros [= <-]. exists i, raw. simpl in Eb.
    repeat split; auto; lia.
Qed.


End AccessorFacts.


(** ** Digit runs *)






(** ** More on the reports *)

Section ReportFacts.

Variable re_search : regex -> string -> option (list (option string)).
Variable ui : ui_tree.
Variable getForegroundObject : read (option node).
Variable getStatusBarText : nat -> read (option string).

Lemma direct_truthy :
  truthy (result (_get_status_text_api getStatusBarText))
  = match result (_get_status_text_api getStatusBarText) with
    | Some _ => true
    | None => false
    end.
Proof.
  destruct (result (_get_status_text_api getStatusBarText)) as [t|] eqn:E;
    [|reflexivity].
  apply attempt_result in E as (j & raw & _ & _ & Hraw & ->).
  simpl. now rewrite normalize_empty, <- strip_empty, Hraw.
Qed.

Lemma direct_silent :
  spoken (calls (_get_status_text_api getStatusBarText)) = [].
Proof. apply attempt_silent. Qed.

Lemma direct_no_foreground :
  ~ In EvGetForegroundObject (calls (_get_status_text_api getStatusBarText)).
Proof. apply attempt_no_foreground. Qed.

(** X15: when the built-in status report succeeds, the full status
    report does nothing else: no query, no scan, no message.  When it
    raises and the direct accessor gives a text, exactly that text is
    spoken and the collector is not called. *)
Theorem report_status_early_stages :
  script_reportDuxburyStatus re_search ui getForegroundObject
    getStatusBarText (Val tt) = (tt, [EvReportStatusLine])
  /\ (forall t,
        result (_get_status_text_api getStatusBarText) = Some t ->
        calls (script_reportDuxburyStatus re_search ui getForegroundObject
                 getStatusBarText Raises)
        = [EvReportStatusLine; EvLogDebug]
          ++ calls (_get_status_text_api getStatusBarText)
          ++ [EvMessage t]
        /\ spoken (calls (script_reportDuxburyStatus re_search ui
                            getForegroundObject getStatusBarText Raises))
           = [t]
        /\ ~ In EvGetForegroundObject
               (calls (script_reportDuxburyStatus re_search ui
                         getForegroundObject getStatusBarText Raises))).
Proof.
  split; [reflexivity|]. intros t Ht.
  assert (E : calls (script_reportDuxburyStatus re_search ui
                       getForegroundObject getStatusBarText Raises)
              = [EvReportStatusLine; EvLogDebug]
                ++ calls (_get_status_text_api getStatusBarText)
                ++ [EvMessage t]).
  { unfold script_reportDuxburyStatus.
    rewrite !calls_bind, direct_truthy, Ht. reflexivity. }
  split; [exact E|]. rewrite E. split.
  - rewrite !spoken_app, direct_silent. reflexivity.
  - intros H. apply in_app_or in H as [H|H].
    + destruct H as [H|[H|[]]]; discriminate.
    + apply in_app_or in H as [H|[H|[]]]; [|discriminate].
      now apply direct_no_foreground in H.
Qed.

Lemma page_from_scan_spoken :
  spoken (calls (page_from_scan re_search ui getForegroundObject))
  = [ match result (ui_scan re_search ui getForegroundObject) !! "page" with
      | Some v => ("Page " ++ v)%string
      | None => "Page number not available."
      end ].
Proof.
  unfold page_from_scan. rewrite calls_bind, spoken_app, ui_scan_silent.
  destruct (result (ui_scan re_search ui getForegroundObject) !! "page");
    reflexivity.
Qed.

Lemma line_from_scan_spoken :
  spoken (calls (line_from_scan re_search ui getForegroundObject))
  = [ match result (ui_scan re_search ui getForegroundObject) !! "line" with
      | Some v => ("Line " ++ v)%string
      | None => "Line number not available."
      end ].
Proof.
  unfold line_from_scan. rewrite calls_bind, spoken_app, ui_scan_silent.
  destruct (result (ui_scan re_search ui getForegroundObject) !! "line");
    reflexivity.
Qed.


End ReportFacts.

Lemma report_status_early_stages_witness :
  result (_get_status_text_api (always (Val (Some " Page 2   Line 7 "))))
  = Some "Page 2 Line 7"
  /\ spoken (calls (script_reportDuxburyStatus Re.search status_tree
                      (Val (Some 0))
                      (always (Val (Some " Page 2   Line 7 "))) Raises))
     = ["Page 2 Line 7"].
Proof.
  assert (H : result (_get_status_text_api
                        (always (Val (Some " Page 2   Line 7 "))))
              = Some "Page 2 Line 7") by reflexivity.
  split; [exact H|].
  destruct (report_status_early_stages Re.search status_tree (Val (Some 0))
              (always (Val (Some " Page 2   Line 7 ")))) as [_ Hdirect].
  exact (proj1 (proj2 (Hdirect _ H))).
Defined.


Section Outcomes.

Variable re_search : regex -> string -> option (list (option string)).
Variable ui : ui_tree.
Variable getForegroundObject : read (option node).
Variable getStatusBarText : nat -> read (option string).

Lemma number_or_runs_silent (n : option string) (t : string)
    (pick : list string -> option string) :
  spoken (calls (if truthy n then ret n
                 else bind (findall_digits t)
                           (fun nums => ret (pick nums)))) = [].
Proof. destruct (truthy n); reflexivity. Qed.

(** X17: every report ends in speech: the line-only and the page-only
    report speak exactly one message whatever the host answers, and so
    does the full status report when the built-in report raises. *)
Theorem reports_speak_once :
  length (spoken (calls (script_reportDuxburyLine re_search ui
                           getForegroundObject getStatusBarText))) = 1
  /\ length (spoken (calls (script_reportDuxburyPage re_search ui
                              getForegroundObject getStatusBarText))) = 1
  /\ length (spoken (calls (script_reportDuxburyStatus re_search ui
                              getForegroundObject getStatusBarText Raises)))
     = 1.
Proof.
  split; [|split].
  - unfold script_reportDuxburyLine.
    rewrite calls_bind, spoken_app, direct_silent.
    destruct (truthy (result (_get_status_text_api getStatusBarText)));
      [|now rewrite line_from_scan_spoken].
    rewrite !calls_bind, !spoken_app, _match_first_number_silent,
      number_or_runs_silent.
    destruct (truthy _); [reflexivity|now rewrite line_from_scan_spoken].
  - unfold script_reportDuxburyPage.
    rewrite calls_bind, spoken_app, direct_silent.
    destruct (truthy (result (_get_status_text_api getStatusBarText)));
      [|now rewrite page_from_scan_spoken].
    rewrite !calls_bind, !spoken_app, _match_first_number_silent,
      number_or_runs_silent.
    destruct (truthy _); [reflexivity|now rewrite page_from_scan_spoken].
  - unfold script_reportDuxburyStatus.
    rewrite !calls_bind, !spoken_app, direct_silent.
    destruct (truthy (result (_get_status_text_api getStatusBarText)));
      [reflexivity|].
    rewrite calls_bind, spoken_app, ui_scan_silent.
    destruct (bool_decide _); [reflexivity|].
    destruct (parts_of _); reflexivity.
Qed.

Lemma log_candidates_calls (shown : list cand) :
  calls (log_candidates shown) = repeat EvLogDebug (length shown).
Proof.
  induction shown as [|c r IH]; [reflexivity|].
  simpl log_candidates. rewrite calls_bind, IH. reflexivity.
Qed.

Lemma summary_or (parsed : gmap string string) (none : string) :
  fields_only parsed ->
  (if bool_decide (parsed = ∅) then none
   else Text.join ", " (parts_of parsed))
  = match parts_of parsed with
    | [] => none
    | _ :: _ => Text.join ", " (parts_of parsed)
    end.
Proof.
  intros Hkeys. destruct (bool_decide (parsed = ∅)) eqn:E.
  - apply bool_decide_eq_true in E. subst. reflexivity.
  - apply bool_decide_eq_false in E.
    pose proof (parts_of_nonempty parsed Hkeys E) as Hne.
    destruct (parts_of parsed); [contradiction|reflexivity].
Qed.

(** X18: the debug list scans the UI tree, writes one log line per
    candidate up to 30 of them, between a begin and an end line, and
    then speaks the summary of the resolved fields, or "No status
    candidates found." when none is resolved; the debug summary speaks
    the same summary, or "UI scan did not find status information." *)
Theorem debug_reports_spec :
  let cand := result (_collect_candidate_texts ui getForegroundObject) in
  let parsed := result (ui_scan re_search ui getForegroundObject) in
  calls (debugListCandidates re_search ui getForegroundObject)
  = calls (ui_scan re_search ui getForegroundObject)
    ++ [EvLogDebug]
    ++ repeat EvLogDebug (Nat.min 30 (length cand))
    ++ [EvLogDebug;
        EvMessage match parts_of parsed with
                  | [] => "No status candidates found."
                  | _ :: _ => Text.join ", " (parts_of parsed)
                  end]
  /\ spoken (calls (debugScanSummary re_search ui getForegroundObject))
     = [ match parts_of parsed with
         | [] => "UI scan did not find status information."
         | _ :: _ => Text.join ", " (parts_of parsed)
         end ].
Proof.
  cbv zeta.
  assert (Hkeys : fields_only
                    (result (ui_scan re_search ui getForegroundObject)))
    by apply _parse_from_any_keys.
  split.
  - unfold debugListCandidates.
    rewrite !calls_bind, log_candidates_calls, length_firstn.
    change (calls (emit EvLogDebug)) with [EvLogDebug].
    fold (ui_scan re_search ui getForegroundObject).
    unfold ui_scan at 1. rewrite calls_bind, <- !app_assoc.
    do 4 f_equal.
    change (result (_parse_from_any re_search
              (result (_collect_candidate_texts ui getForegroundObject))))
      with (result (ui_scan re_search ui getForegroundObject)).
    rewrite <- (summary_or _ "No status candidates found." Hkeys).
    destruct (bool_decide _); reflexivity.
  - unfold debugScanSummary.
    rewrite !calls_bind, !spoken_app.
    change (result (_parse_from_any re_search
              (result (_collect_candidate_texts ui getForegroundObject))))
      with (result (ui_scan re_search ui getForegroundObject)).
    rewrite <- (summary_or _ "UI scan did not find status information."
                  Hkeys).
    rewrite _parse_from_any_silent, _collect_candidate_texts_calls.
    destruct getForegroundObject; destruct (bool_decide _); reflexivity.
Qed.

End Outcomes.

Section NoForeground.

Variable re_search : regex -> string -> option (list (option string)).
Variable ui : ui_tree.
Variable getStatusBarText : nat -> read (option string).

(** X19: when the host gives no foreground window (the call raises or
    returns [None]) and the patterns do not match the empty text, the
    collector returns no candidate, the scan resolves no field, and each
    report that reaches the scan speaks its own "not available"
    message. *)
Theorem reports_without_foreground (fg : read (option node)) :
  unmatched re_search "" ->
  fg = Raises \/ fg = Val None ->
  result (_collect_candidate_texts ui fg) = []
  /\ result (ui_scan re_search ui fg) = ∅
  /\ spoken (calls (line_from_scan re_search ui fg))
     = ["Line number not available."]
  /\ spoken (calls (page_from_scan re_search ui fg))
     = ["Page number not available."]
  /\ (result (_get_status_text_api getStatusBarText) = None ->
      spoken (calls (script_reportDuxburyStatus re_search ui fg
                       getStatusBarText Raises))
      = ["Status bar not available."])
  /\ spoken (calls (debugScanSummary re_search ui fg))
     = ["UI scan did not find status information."].
Proof.
  intros Hre Hfg.
  assert (Hcand : result (_collect_candidate_texts ui fg) = [])
    by (destruct Hfg; subst; reflexivity).
  assert (Hscan : result (ui_scan re_search ui fg) = ∅).
  { unfold ui_scan. rewrite result_bind, Hcand.
    now apply parse_no_candidates. }
  split; [exact Hcand|]. split; [exact Hscan|].
  split; [now rewrite line_from_scan_spoken, Hscan|].
  split; [now rewrite page_from_scan_spoken, Hscan|].
  split.
  - intros Hdirect. unfold script_reportDuxburyStatus.
    rewrite !calls_bind, !spoken_app, direct_silent, direct_truthy, Hdirect.
    rewrite calls_bind, spoken_app, ui_scan_silent, Hscan. reflexivity.
  - unfold debugScanSummary. rewrite !calls_bind, !spoken_app.
    change (result (_parse_from_any re_search
                      (result (_collect_candidate_texts ui fg))))
      with (result (ui_scan re_search ui fg)).
    rewrite Hscan, _parse_from_any_silent, _collect_candidate_texts_calls.
    destruct fg; reflexivity.
Qed.

End NoForeground.

Lemma reports_without_foreground_witness :
  unmatched Re.search ""
  /\ spoken (calls (script_reportDuxburyStatus Re.search status_tree Raises
                      (always Raises) Raises))
     = ["Status bar not available."]
  /\ spoken (calls (line_from_scan Re.search status_tree (Val None)))
     = ["Line number not available."].
Proof.
  assert (H : unmatched Re.search "") by (unfold unmatched; repeat constructor).
  split; [exact H|]. split.
  - destruct (reports_without_foreground Re.search status_tree
                (always Raises) Raises H (or_introl eq_refl))
      as (_ & _ & _ & _ & Hstatus & _).
    apply Hstatus. reflexivity.
  - destruct (reports_without_foreground Re.search status_tree
                (always Raises) (Val None) H (or_intror eq_refl))
      as (_ & _ & Hline & _).
    exact Hline.
Defined.

(** ** Sorting and deduplicating twice *)

Lemma sorted_by_prio_id (l : list cand) :
  StronglySorted prio_le l -> sorted_by_prio l = l.
Proof.
  induction 1 as [|c l Hl IH Hc]; [reflexivity|].
  simpl. rewrite IH. destruct l as [|d r]; [reflexivity|].
  simpl. inversion Hc as [|? ? Hcd _]; subst.
  unfold prio_le in Hcd. apply Z.leb_le in Hcd. now rewrite Hcd.
Qed.

Lemma unique_from_id (l : list cand) :
  forall seen : gset string,
    NoDup (map snd l) ->
    (forall s, In s (map snd l) -> s ∉ seen) ->
    unique_from seen l = l.
Proof.
  induction l as [|[pr s] r IH]; intros seen Hnd Hfresh; [reflexivity|].
  simpl in *. apply NoDup_cons in Hnd as [Hs Hnd].
  destruct (decide (s ∈ seen)) as [Hin|_].
  { exfalso. apply (Hfresh s); auto. }
  rewrite IH; [reflexivity|exact Hnd|].
  intros t Ht Hin. apply elem_of_union in Hin as [Hin|Hin].
  - apply elem_of_singleton in Hin. subst.
    apply Hs. now apply list_elem_of_In.
  - apply (Hfresh t); auto.
Qed.

(** X20: the sort-and-deduplicate step changes nothing in a list that it
    produced: applying it twice is applying it once. *)
Theorem unique_sorted_idempotent (candidates : list cand) :
  unique_sorted (unique_sorted candidates) = unique_sorted candidates.
Proof.
  unfold unique_sorted at 1.
  assert (Hs : StronglySorted prio_le (unique_sorted candidates))
    by (apply unique_from_sorted, sorted_by_prio_sorted).
  rewrite (sorted_by_prio_id _ Hs).
  apply unique_from_id; [apply unique_from_NoDup|].
  intros s _. apply not_elem_of_empty.
Qed.
